(** * Numerics orchestrator of lenstronomy (ImSim/Numerics/numerics.py)

    A shallow embedding of [Numerics.__init__], [Numerics.re_size_convolve]
    and [Numerics.coordinates_evaluate].  Python floats are IEEE binary64,
    modelled by Rocq's primitive [float].  The grid classes, the convolution
    classes and [util.fwhm2sigma] live in other modules of the repository
    that are not part of the sources at hand; they are modelled from the
    spec below, each marked as such. *)

Set Warnings "-inexact-float".
From Stdlib Require Import ZArith String List Bool Floats Uint63 Lia.
Import ListNotations.
Local Open Scope string_scope.
Local Open Scope float_scope.

(** ** Errors and the error monad *)

(** [InvalidConfiguration] is the spec's name for the [ValueError] raised at
    construction; [ShapeMismatch] the per-call flux length error;
    [AttributeError] is what Python raises when [self._conv] is [None] and
    its [re_size_convolve] is looked up. *)
Inductive error := InvalidConfiguration | ShapeMismatch | AttributeError.

Inductive result (A : Type) := Ok (a : A) | Err (e : error).
Arguments Ok {A} a.
Arguments Err {A} e.

Definition bind {A B} (m : result A) (k : A -> result B) : result B :=
  match m with Ok a => k a | Err e => Err e end.

Notation "'let*' x ':=' m 'in' k" := (bind m (fun x => k))
  (at level 200, x name, m at level 100, k at level 200).

Definition is_ok {A} (r : result A) : bool :=
  match r with Ok _ => true | Err _ => false end.

(** ** Data model *)

Definition image := list (list float).
Definition mask := list (list bool).
Definition coord := (float * float)%type.
Definition mat2 := ((float * float) * (float * float))%type.

(** The [PixelGrid] instance, as far as [Numerics] reads it. *)
Record PixelGrid := {
  pixel_width : float;
  num_pixel_axes : nat * nat;
  transform_pix2angle : mat2;
  radec_at_xy_0 : float * float
}.

(** The [PSF] instance, as far as [Numerics] reads it. *)
Record PSF := {
  psf_type : string;
  fwhm : float;
  kernel_point_source : image;
  kernel_point_source_supersampled : nat -> image
}.

(** ** Helpers on images and masks *)

Definition float_of_nat (n : nat) : float :=
  PrimFloat.of_uint63 (Uint63.of_Z (Z.of_nat n)).

(** [np.zeros((nx, ny), dtype=bool)] *)
Definition zeros_mask (nx ny : nat) : mask := repeat (repeat false ny) nx.

Definition shape_ok (nx ny : nat) (m : mask) : bool :=
  (length m =? nx)%nat && forallb (fun r => (length r =? ny)%nat) m.

Definition opt_shape_ok (nx ny : nat) (m : option mask) : bool :=
  match m with None => true | Some m => shape_ok nx ny m end.

Definition mask_at (m : mask) (i j : nat) : bool := nth j (nth i m []) false.

Definition pixel_at (img : image) (i j : nat) : float := nth j (nth i img []) 0.

(** Row-major index pairs of an [nx] by [ny] array. *)
Definition pixels (nx ny : nat) : list (nat * nat) :=
  flat_map (fun i => map (fun j => (i, j)) (seq 0 ny)) (seq 0 nx).

(** [array2image]: cut a flat array into [nrows] rows of [ncols]. *)
Fixpoint reshape (ncols nrows : nat) (a : list float) : image :=
  match nrows with
  | O => []
  | S n => firstn ncols a :: reshape ncols n (skipn ncols a)
  end.

(** Elementwise [image * scalar] (numpy broadcasting). *)
Definition image_scale (img : image) (c : float) : image :=
  map (map (fun v => v * c)) img.

(** ** The grids (modelled from the spec)

    Modelled from the spec: [RegularGrid] and [AdaptiveGrid]
    (ImSim/Numerics/grid.py) are not in the sources.  §4.1: the regular grid
    samples every pixel at [s] by [s] sub-pixels and zeroes pixels outside
    [flux_evaluate] afterwards; the adaptive grid evaluates one coordinate per
    [flux_evaluate] pixel followed by the [s] by [s] sub-coordinates of the
    [supersampled] pixels; reassembly routes the samples back in the same
    order and fails with [ShapeMismatch] on a wrong length.  §7: a mask whose
    shape is not [(nx, ny)] fails construction with [InvalidConfiguration]. *)
Inductive Grid :=
| RegularGrid (nx ny : nat) (transform_pix2angle : mat2) (ra_at_xy_0 dec_at_xy_0 : float)
    (supersampling_factor : nat) (flux_evaluate_indexes : option mask)
| AdaptiveGrid (nx ny : nat) (transform_pix2angle : mat2) (ra_at_xy_0 dec_at_xy_0 : float)
    (supersampled_indexes : mask) (supersampling_factor : nat)
    (flux_evaluate_indexes : option mask).

Definition RegularGrid_new nx ny M ra0 dec0 s fe : result Grid :=
  if opt_shape_ok nx ny fe then Ok (RegularGrid nx ny M ra0 dec0 s fe)
  else Err InvalidConfiguration.

Definition AdaptiveGrid_new nx ny M ra0 dec0 sup s fe : result Grid :=
  if shape_ok nx ny sup && opt_shape_ok nx ny fe
  then Ok (AdaptiveGrid nx ny M ra0 dec0 sup s fe)
  else Err InvalidConfiguration.

Definition pix2angle (M : mat2) (ra0 dec0 x y : float) : coord :=
  let '((a, b), (c, d)) := M in (ra0 + (a * x + b * y), dec0 + (c * x + d * y)).

(** Centre of high-resolution cell [h] in regular pixel units. *)
Definition subpixel (s h : nat) : float :=
  (float_of_nat h + 0.5) / float_of_nat s - 0.5.

Definition fe_at (fe : option mask) (i j : nat) : bool :=
  match fe with None => true | Some m => mask_at m i j end.

(** Post-hoc zeroing of the pixels outside [flux_evaluate]. *)
Definition apply_mask (nx ny : nat) (fe : option mask) (img : image) : image :=
  map (fun i => map (fun j => if fe_at fe i j then pixel_at img i j else 0) (seq 0 ny))
      (seq 0 nx).

Definition block_mean (s : nat) (high : image) (i j : nat) : float :=
  fold_left (fun acc p => acc + pixel_at high (i * s + fst p) (j * s + snd p))
            (pixels s s) 0 / float_of_nat (s * s).

(** Fill the selected cells with the next values, the others with 0. *)
Fixpoint scatter (sel : list bool) (vals : list float) : list float :=
  match sel with
  | [] => []
  | true :: sel' =>
      match vals with
      | v :: vals' => v :: scatter sel' vals'
      | [] => 0 :: scatter sel' []
      end
  | false :: sel' => 0 :: scatter sel' vals
  end.

(** The sample points of each grid, in evaluation order. *)
Definition low_points (g : Grid) : list (nat * nat) :=
  match g with
  | RegularGrid _ _ _ _ _ _ _ => []
  | AdaptiveGrid nx ny _ _ _ _ _ fe =>
      filter (fun p => fe_at fe (fst p) (snd p)) (pixels nx ny)
  end.

Definition high_points (g : Grid) : list (nat * nat) :=
  match g with
  | RegularGrid nx ny _ _ _ s _ => pixels (nx * s) (ny * s)
  | AdaptiveGrid nx ny _ _ _ sup s _ =>
      filter (fun p => mask_at sup (fst p / s) (snd p / s)) (pixels (nx * s) (ny * s))
  end.

Definition grid_coordinates_evaluate (g : Grid) : list coord :=
  match g with
  | RegularGrid _ _ M ra0 dec0 s _ | AdaptiveGrid _ _ M ra0 dec0 _ s _ =>
      map (fun p => pix2angle M ra0 dec0 (float_of_nat (fst p)) (float_of_nat (snd p)))
          (low_points g)
      ++ map (fun p => pix2angle M ra0 dec0 (subpixel s (fst p)) (subpixel s (snd p)))
             (high_points g)
  end.

Definition grid_flux_array2image_low_high (g : Grid) (flux_array : list float)
  : result (image * option image) :=
  if negb (length flux_array =? length (low_points g) + length (high_points g))%nat
  then Err ShapeMismatch
  else
    match g with
    | RegularGrid nx ny _ _ _ s fe =>
        if (s <=? 1)%nat then Ok (apply_mask nx ny fe (reshape ny nx flux_array), None)
        else
          let high := reshape (ny * s) (nx * s) flux_array in
          Ok (apply_mask nx ny fe
                (map (fun i => map (fun j => block_mean s high i j) (seq 0 ny)) (seq 0 nx)),
              Some high)
    | AdaptiveGrid nx ny _ _ _ sup s fe =>
        let n_low := length (low_points g) in
        let low0 := reshape ny nx
          (scatter (map (fun p => fe_at fe (fst p) (snd p)) (pixels nx ny))
                   (firstn n_low flux_array)) in
        let high := reshape (ny * s) (nx * s)
          (scatter (map (fun p => mask_at sup (fst p / s) (snd p / s)) (pixels (nx * s) (ny * s)))
                   (skipn n_low flux_array)) in
        let low := map (fun i => map (fun j =>
                     if mask_at sup i j then block_mean s high i j else pixel_at low0 i j)
                     (seq 0 ny)) (seq 0 nx) in
        Ok (low, if (s <=? 1)%nat then None else Some high)
    end.

(** ** The convolution classes (modelled from the spec)

    Modelled from the spec: [AdaptiveConvolution]
    (ImSim/Numerics/adaptive_numerics.py), [SubgridKernelConvolution],
    [PixelKernelConvolution] and [MultiGaussianConvolution]
    (ImSim/Numerics/convolution.py) are not in the sources.  A constructed
    object is kept as the constructor call that built it (the compilation
    flags [nopython], [cache], [parallel] of [AdaptiveConvolution] are
    dropped).  Per §7 the one mask an [AdaptiveConvolution] receives besides
    the supersampled one, [compute_pixels], must have the same shape. *)
Inductive Convolution :=
| AdaptiveConvolution (kernel_super : image) (supersampling_factor : nat)
    (conv_supersample_pixels : mask) (supersampling_kernel_size : nat)
    (compute_pixels : option mask)
| SubgridKernelConvolution (kernel_super : image) (supersampling_factor : nat)
    (supersampling_kernel_size : nat) (convolution_type : string)
| PixelKernelConvolution (kernel : image) (convolution_type : string)
| MultiGaussianConvolution (sigma_list fraction_list : list float) (pixel_scale : float)
    (supersampling_factor : nat) (supersampling_convolution : bool) (truncation : nat).

Definition AdaptiveConvolution_new kernel_super s conv_supersample_pixels
    supersampling_kernel_size compute_pixels : result Convolution :=
  if opt_shape_ok (length conv_supersample_pixels) (length (hd [] conv_supersample_pixels))
       compute_pixels
  then Ok (AdaptiveConvolution kernel_super s conv_supersample_pixels
             supersampling_kernel_size compute_pixels)
  else Err InvalidConfiguration.

(** Modelled from the spec: [util.fwhm2sigma] (Util/util.py) is not in the
    sources; §4.2 gives [sigma = FWHM / (2 sqrt(2 ln 2))].  [np.log(2)] is the
    double nearest to ln 2. *)
Definition log2_float : float := 0.6931471805599453.

Definition fwhm2sigma (fwhm : float) : float := fwhm / (2 * PrimFloat.sqrt (2 * log2_float)).

(** ** The Numerics object *)

(** The attributes [Numerics.__init__] sets, and the three the
    [PointSourceRendering] base constructor receives. *)
Record Numerics := {
  _psf_type : string;
  _pixel_width : float;
  _grid : Grid;
  _conv : option Convolution;
  ps_pixel_grid : PixelGrid;
  ps_supersampling_factor : nat;
  ps_psf : PSF
}.

(** [Numerics.__init__].  [None] arguments are [None] options; the Python
    identity tests [supersampling_convolution is True] are on a [bool]. *)
Definition numerics_init (pixel_grid : PixelGrid) (psf : PSF) (supersampling_factor : nat)
    (compute_mode : string) (supersampling_convolution : bool)
    (supersampling_kernel_size : nat)
    (flux_evaluate_indexes supersampled_indexes compute_indexes : option mask)
    (point_source_supersampling_factor : nat) : result Numerics :=
  let psf_type_ := psf.(psf_type) in
  let supersampling_convolution :=
    if (supersampling_factor =? 1)%nat then false else supersampling_convolution in
  let pixel_width_ := pixel_grid.(pixel_width) in
  let '(nx, ny) := pixel_grid.(num_pixel_axes) in
  let transform_pix2angle_ := pixel_grid.(transform_pix2angle) in
  let '(ra_at_xy_0, dec_at_xy_0) := pixel_grid.(radec_at_xy_0) in
  let supersampled_indexes :=
    match supersampled_indexes with None => zeros_mask nx ny | Some m => m end in
  let* grid :=
    if String.eqb compute_mode "adaptive"
    then AdaptiveGrid_new nx ny transform_pix2angle_ ra_at_xy_0 dec_at_xy_0
           supersampled_indexes supersampling_factor flux_evaluate_indexes
    else RegularGrid_new nx ny transform_pix2angle_ ra_at_xy_0 dec_at_xy_0
           supersampling_factor flux_evaluate_indexes in
  let* conv :=
    if String.eqb psf_type_ "PIXEL" then
      if String.eqb compute_mode "adaptive" && supersampling_convolution then
        let kernel_super := psf.(kernel_point_source_supersampled) supersampling_factor in
        let* c := AdaptiveConvolution_new kernel_super supersampling_factor
                    supersampled_indexes supersampling_kernel_size compute_indexes in
        Ok (Some c)
      else if String.eqb compute_mode "regular" && supersampling_convolution then
        let kernel_super := psf.(kernel_point_source_supersampled) supersampling_factor in
        Ok (Some (SubgridKernelConvolution kernel_super supersampling_factor
                    supersampling_kernel_size "fft"))
      else
        let kernel := psf.(kernel_point_source) in
        Ok (Some (PixelKernelConvolution kernel "fft"))
    else if String.eqb psf_type_ "GAUSSIAN" then
      let pixel_scale := pixel_grid.(pixel_width) in
      let sigma := fwhm2sigma psf.(fwhm) in
      Ok (Some (MultiGaussianConvolution [sigma] [1] pixel_scale supersampling_factor
                  supersampling_convolution 4))
    else if String.eqb psf_type_ "NONE" then Ok None
    else Err InvalidConfiguration in
  Ok {| _psf_type := psf_type_; _pixel_width := pixel_width_; _grid := grid; _conv := conv;
        ps_pixel_grid := pixel_grid;
        ps_supersampling_factor := point_source_supersampling_factor;
        ps_psf := psf |}.

(** ** Methods, with the object passed and returned explicitly *)

Section Methods.

(** Modelled from the spec: the [re_size_convolve] method of the convolution
    classes is not in the sources; §4.2 makes it a total function of the
    low-resolution and the partial high-resolution image. *)
Variable conv_re_size_convolve : Convolution -> image -> option image -> image.

(** [Numerics.re_size_convolve]; [x ** 2] on a float is [x * x]. *)
Definition re_size_convolve (self : Numerics) (flux_array : list float) (unconvolved : bool)
  : result image * Numerics :=
  match grid_flux_array2image_low_high self.(_grid) flux_array with
  | Err e => (Err e, self)
  | Ok (image_low_res, image_high_res_partial) =>
      let image_conv :=
        if unconvolved || String.eqb self.(_psf_type) "NONE" then Ok image_low_res
        else match self.(_conv) with
             | Some c => Ok (conv_re_size_convolve c image_low_res image_high_res_partial)
             | None => Err AttributeError
             end in
      (let* im := image_conv in Ok (image_scale im (self.(_pixel_width) * self.(_pixel_width))),
       self)
  end.

(** The property [Numerics.coordinates_evaluate]. *)
Definition coordinates_evaluate (self : Numerics) : list coord * Numerics :=
  (grid_coordinates_evaluate self.(_grid), self).

(** A sequence of method calls on one object, each outcome kept. *)
Inductive call := CoordinatesEvaluate | ReSizeConvolve (flux_array : list float) (unconvolved : bool).

Inductive outcome := Coords (c : list coord) | Image (r : result image).

Definition step (self : Numerics) (c : call) : outcome * Numerics :=
  match c with
  | CoordinatesEvaluate => let '(x, self') := coordinates_evaluate self in (Coords x, self')
  | ReSizeConvolve f u => let '(r, self') := re_size_convolve self f u in (Image r, self')
  end.

Fixpoint run (self : Numerics) (cs : list call) : list outcome * Numerics :=
  match cs with
  | [] => ([], self)
  | c :: cs' =>
      let '(o, self') := step self c in
      let '(os, self'') := run self' cs' in
      (o :: os, self'')
  end.

End Methods.

(** * UpdateManager (Workflow/update_manager.py)

    The parameter dicts ([{'theta_E': 1., ...}], one per model) are mutable
    Python objects that the class updates in place and that several
    attributes may share, so they live in an explicit heap: a location is an
    index into a list of dicts.  The lists of such dicts ([kwargs_lens] and
    the like) are never mutated by this class, so they are kept as values
    (lists of locations).  Parameter values are never mutated either and are
    kept as immutable values.  Parameter names are strings. *)
Module UpdateManager.

Set Warnings "-register-all".

Inductive pval := VNone | VNum (f : float) | VStr (s : string) | VBool (b : bool)
                | VList (xs : list pval).

(** A dict in insertion order, with distinct keys. *)
Definition pdict := list (string * pval).

Fixpoint dict_get (d : pdict) (k : string) : option pval :=
  match d with
  | [] => None
  | (k', v) :: d' => if String.eqb k k' then Some v else dict_get d' k
  end.

Definition dict_has (d : pdict) (k : string) : bool :=
  match dict_get d k with Some _ => true | None => false end.

(** [d[k] = v]: an existing key keeps its position. *)
Fixpoint dict_set (d : pdict) (k : string) (v : pval) : pdict :=
  match d with
  | [] => [(k, v)]
  | (k', v') :: d' => if String.eqb k k' then (k, v) :: d' else (k', v') :: dict_set d' k v
  end.

Definition dict_del (d : pdict) (k : string) : pdict :=
  filter (fun kv => negb (String.eqb (fst kv) k)) d.

Inductive exc := KeyError | IndexError | TypeError | ValueError.

Definition heap := list pdict.

Inductive pyres (A : Type) := PyOk (a : A) | PyRaise (e : exc).
Arguments PyOk {A} a.
Arguments PyRaise {A} e.

(** Statements run on the heap; an exception keeps the writes done so far. *)
Definition ST (A : Type) := heap -> pyres A * heap.

Definition ret {A} (a : A) : ST A := fun h => (PyOk a, h).
Definition raise {A} (e : exc) : ST A := fun h => (PyRaise e, h).
Definition bindST {A B} (m : ST A) (k : A -> ST B) : ST B :=
  fun h => match m h with
           | (PyOk a, h') => k a h'
           | (PyRaise e, h') => (PyRaise e, h')
           end.

Notation "x <-- m ;; k" := (bindST m (fun x => k))
  (at level 61, m at next level, right associativity).
Notation "m ;;; k" := (bindST m (fun _ => k)) (at level 61, right associativity).

Fixpoint list_set {A} (xs : list A) (n : nat) (a : A) : list A :=
  match xs, n with
  | [], _ => []
  | _ :: xs', O => a :: xs'
  | x :: xs', S n' => x :: list_set xs' n' a
  end.

Definition load (l : nat) : ST pdict :=
  fun h => match nth_error h l with
           | Some d => (PyOk d, h)
           | None => (PyRaise TypeError, h)
           end.

Definition store (l : nat) (d : pdict) : ST unit := fun h => (PyOk tt, list_set h l d).

Definition alloc (d : pdict) : ST nat := fun h => (PyOk (List.length h), app h [d]).

(** Python list indexing [xs[i]], negative indices counting from the end. *)
Definition py_index {A} (xs : list A) (i : Z) : option A :=
  let n := Z.of_nat (List.length xs) in
  if ((i <? - n) || (n <=? i))%Z then None
  else nth_error xs (Z.to_nat (if (i <? 0)%Z then (i + n)%Z else i)).

Definition getidx {A} (xs : list A) (i : Z) : ST A :=
  match py_index xs i with Some a => ret a | None => raise IndexError end.

(** [xs[i]] where [xs] may be [None] ([TypeError] then). *)
Definition getidx_opt {A} (xs : option (list A)) (i : Z) : ST A :=
  match xs with Some xs => getidx xs i | None => raise TypeError end.

Definition getitem (l : nat) (k : string) : ST pval :=
  d <-- load l ;; match dict_get d k with Some v => ret v | None => raise KeyError end.

Definition setitem (l : nat) (k : string) (v : pval) : ST unit :=
  d <-- load l ;; store l (dict_set d k v).

Definition delitem (l : nat) (k : string) : ST unit :=
  d <-- load l ;; if dict_has d k then store l (dict_del d k) else raise KeyError.

Definition contains (l : nat) (k : string) : ST bool := d <-- load l ;; ret (dict_has d k).

(** [d.get(k, None)] *)
Definition get_default (l : nat) (k : string) : ST pval :=
  d <-- load l ;; ret (match dict_get d k with Some v => v | None => VNone end).

Fixpoint assoc (memo : list (nat * nat)) (l : nat) : option nat :=
  match memo with
  | [] => None
  | (a, b) :: memo' => if (a =? l)%nat then Some b else assoc memo' l
  end.

(** [copy.deepcopy] of a list of dicts: each dict copied once (the memo keeps
    a dict that occurs twice shared in the copy, as Python's memo does); the
    values are immutable here, so copying the dict's entries suffices. *)
Fixpoint deepcopy_aux (memo : list (nat * nat)) (ls : list nat) : ST (list nat) :=
  match ls with
  | [] => ret []
  | l :: ls' =>
      match assoc memo l with
      | Some l' => rest <-- deepcopy_aux memo ls' ;; ret (l' :: rest)
      | None =>
          d <-- load l ;; l' <-- alloc d ;;
          rest <-- deepcopy_aux ((l, l') :: memo) ls' ;; ret (l' :: rest)
      end
  end.

Definition deepcopy_dicts (ls : list nat) : ST (list nat) := deepcopy_aux [] ls.

(** [copy.deepcopy] of one dict. *)
Definition deepcopy_dict (l : nat) : ST nat := d <-- load l ;; alloc d.

(** [for j, x in enumerate(xs): body j x] *)
Fixpoint for_enum {A} (j : nat) (xs : list A) (body : nat -> A -> ST unit) : ST unit :=
  match xs with
  | [] => ret tt
  | x :: xs' => body j x ;;; for_enum (S j) xs' body
  end.

Fixpoint for_each {A} (xs : list A) (body : A -> ST unit) : ST unit :=
  match xs with
  | [] => ret tt
  | x :: xs' => body x ;;; for_each xs' body
  end.

(** An entry [[i_model, ['name', ...], [value, ...]]]. *)
Definition change := (Z * list string * list pval)%type.

(** [UpdateManager._update_limit] *)
Definition _update_limit (change_limit : list change) (kwargs_limit_previous : list nat)
  : ST (list nat) :=
  kwargs_limit_updated <-- deepcopy_dicts kwargs_limit_previous ;;
  for_each change_limit (fun c =>
    let '(i_model, change_names, values) := c in
    for_enum 0 change_names (fun j param_name =>
      v <-- getidx values (Z.of_nat j) ;;
      d <-- getidx kwargs_limit_updated i_model ;;
      setitem d param_name v)) ;;;
  ret kwargs_limit_updated.

(** An entry [[i_model, ['name', ...]]] or [[i_model, ['name', ...], [value, ...]]]:
    [None] when [len(add_fixed[i]) > 2] fails. *)
Definition add_entry := (Z * list string * option (list pval))%type.

(** [UpdateManager._add_fixed]; [kwargs_model] may be [None]. *)
Definition _add_fixed (kwargs_model : option (list nat)) (kwargs_fixed : list nat)
    (add_fixed : list add_entry) : ST (list nat) :=
  for_each add_fixed (fun e =>
    let '(i_model, fix_names, ovalues) := e in
    let values := match ovalues with
                  | Some vs => vs
                  | None => repeat VNone (List.length fix_names)
                  end in
    for_enum 0 fix_names (fun j param_name =>
      vj <-- getidx values (Z.of_nat j) ;;
      match vj with
      | VNone =>
          dm <-- getidx_opt kwargs_model i_model ;;
          v <-- getitem dm param_name ;;
          df <-- getidx kwargs_fixed i_model ;;
          setitem df param_name v
      | _ =>
          df <-- getidx kwargs_fixed i_model ;;
          setitem df param_name vj
      end)) ;;;
  ret kwargs_fixed.

(** [UpdateManager._remove_fixed] *)
Definition _remove_fixed (kwargs_fixed : list nat) (remove_fixed : list (Z * list string))
  : ST (list nat) :=
  for_each remove_fixed (fun e =>
    let '(i_model, fix_names) := e in
    for_each fix_names (fun param_name =>
      df <-- getidx kwargs_fixed i_model ;;
      b <-- contains df param_name ;;
      if b then (df' <-- getidx kwargs_fixed i_model ;; delitem df' param_name)
      else ret tt)) ;;;
  ret kwargs_fixed.

(** The five lists ([init, sigma, fixed, lower, upper]) of one model type. *)
Record group := {
  g_init : list nat; g_sigma : list nat; g_fixed : list nat; g_lower : list nat; g_upper : list nat
}.

(** The five dicts of [kwargs_params['special']]. *)
Record special_group := { s_init : nat; s_sigma : nat; s_fixed : nat; s_lower : nat; s_upper : nat }.

(** [self._kwargs_temp]; [update_param_state] may store [None]. *)
Record temp := {
  kwargs_lens : option (list nat); kwargs_source : option (list nat);
  kwargs_lens_light : option (list nat); kwargs_ps : option (list nat);
  kwargs_special : option nat; kwargs_extinction : option (list nat)
}.

(** The attributes of an [UpdateManager]; the three option dicts are held by
    reference. *)
Record UM := {
  kwargs_model : nat; kwargs_constraints : nat; kwargs_likelihood : nat;
  lens : group; source : group; lens_light : group; ps : group; extinction : group;
  special : special_group;
  _kwargs_temp : temp
}.

(** The entries of [kwargs_params]; [None] when the key is absent. *)
Record Params := {
  lens_model : option (list (list nat)); source_model : option (list (list nat));
  lens_light_model : option (list (list nat)); point_source_model : option (list (list nat));
  extinction_model : option (list (list nat)); special_params : option (list nat)
}.

Definition with_temp (um : UM) (t : temp) : UM :=
  {| kwargs_model := kwargs_model um; kwargs_constraints := kwargs_constraints um;
     kwargs_likelihood := kwargs_likelihood um; lens := lens um; source := source um;
     lens_light := lens_light um; ps := ps um; extinction := extinction um;
     special := special um; _kwargs_temp := t |}.

Definition empty_group : group :=
  {| g_init := []; g_sigma := []; g_fixed := []; g_lower := []; g_upper := [] |}.

Definition with_fixed (g : group) (f : list nat) : group :=
  {| g_init := g_init g; g_sigma := g_sigma g; g_fixed := f;
     g_lower := g_lower g; g_upper := g_upper g |}.



(** [a, b, c, d, e = kwargs_params[key]] *)
Definition unpack_group (o : option (list (list nat))) : ST group :=
  match o with
  | None => raise KeyError
  | Some [a; b; c; d; e] => ret {| g_init := a; g_sigma := b; g_fixed := c; g_lower := d; g_upper := e |}
  | Some _ => raise ValueError
  end.

(** [if kwargs_model.get(list_key, None) is not None: ... else: [], [], [], [], []] *)
Definition group_for (km : nat) (list_key : string) (o : option (list (list nat))) : ST group :=
  v <-- get_default km list_key ;;
  match v with VNone => ret empty_group | _ => unpack_group o end.

(** The property [init_kwargs]. *)
Definition init_kwargs (um : UM) : temp :=
  {| kwargs_lens := Some (g_init (lens um)); kwargs_source := Some (g_init (source um));
     kwargs_lens_light := Some (g_init (lens_light um)); kwargs_ps := Some (g_init (ps um));
     kwargs_special := Some (s_init (special um));
     kwargs_extinction := Some (g_init (extinction um)) |}.

(** [UpdateManager.__init__] *)
Definition UpdateManager_init (km kc kl : nat) (kwargs_params : Params) : ST UM :=
  lens_g <-- group_for km "lens_model_list" (lens_model kwargs_params) ;;
  source_g <-- group_for km "source_light_model_list" (source_model kwargs_params) ;;
  lens_light_g <-- group_for km "lens_light_model_list" (lens_light_model kwargs_params) ;;
  ps_g <-- group_for km "point_source_model_list" (point_source_model kwargs_params) ;;
  ext_g <-- group_for km "optical_depth_model_list" (extinction_model kwargs_params) ;;
  special_g <--
    match special_params kwargs_params with
    | Some [a; b; c; d; e] =>
        ret {| s_init := a; s_sigma := b; s_fixed := c; s_lower := d; s_upper := e |}
    | Some _ => raise ValueError
    | None =>
        a <-- alloc [] ;; b <-- alloc [] ;; c <-- alloc [] ;; d <-- alloc [] ;; e <-- alloc [] ;;
        ret {| s_init := a; s_sigma := b; s_fixed := c; s_lower := d; s_upper := e |}
    end ;;
  let um := {| kwargs_model := km; kwargs_constraints := kc; kwargs_likelihood := kl;
               lens := lens_g; source := source_g; lens_light := lens_light_g; ps := ps_g;
               extinction := ext_g; special := special_g;
               _kwargs_temp := Build_temp None None None None None None |} in
  ret (with_temp um (init_kwargs um)).

(** [set_init_state] and the property [parameter_state]. *)
Definition set_init_state (um : UM) : UM := with_temp um (init_kwargs um).

Definition parameter_state (um : UM) : temp := _kwargs_temp um.

(** [update_param_state] *)
Definition update_param_state (um : UM) (kl ks kll kps : option (list nat)) (ksp : option nat)
    (kext : option (list nat)) : UM :=
  with_temp um {| kwargs_lens := kl; kwargs_source := ks; kwargs_lens_light := kll;
                  kwargs_ps := kps; kwargs_special := ksp; kwargs_extinction := kext |}.

(** [update_param_value]; [zip] is [combine], which stops at the shorter list. *)
Definition update_param_value (um : UM) (lens source lens_light ps : list change) : ST unit :=
  let t := _kwargs_temp um in
  for_each (combine [lens; source; lens_light; ps]
                    [kwargs_lens t; kwargs_source t; kwargs_lens_light t; kwargs_ps t])
    (fun '(items, lst) =>
       for_each items (fun '(index, keys, values) =>
         for_each (combine keys values) (fun '(key, value) =>
           d <-- getidx_opt lst index ;; setitem d key value))).





Definition getitem_opt (o : option nat) (k : string) : ST pval :=
  match o with Some l => getitem l k | None => raise TypeError end.

(** [update_fixed] *)
Definition update_fixed (um : UM)
    (lens_add_fixed source_add_fixed lens_light_add_fixed ps_add_fixed : list add_entry)
    (special_add_fixed : list string)
    (lens_remove_fixed source_remove_fixed lens_light_remove_fixed ps_remove_fixed
       : list (Z * list string))
    (special_remove_fixed : list string) : ST UM :=
  let t := _kwargs_temp um in
  lens_fixed <-- _add_fixed (kwargs_lens t) (g_fixed (lens um)) lens_add_fixed ;;
  lens_fixed <-- _remove_fixed lens_fixed lens_remove_fixed ;;
  source_fixed <-- _add_fixed (kwargs_source t) (g_fixed (source um)) source_add_fixed ;;
  source_fixed <-- _remove_fixed source_fixed source_remove_fixed ;;
  lens_light_fixed <-- _add_fixed (kwargs_lens_light t) (g_fixed (lens_light um))
                         lens_light_add_fixed ;;
  lens_light_fixed <-- _remove_fixed lens_light_fixed lens_light_remove_fixed ;;
  ps_fixed <-- _add_fixed (kwargs_ps t) (g_fixed (ps um)) ps_add_fixed ;;
  ps_fixed <-- _remove_fixed ps_fixed ps_remove_fixed ;;
  special_fixed <-- deepcopy_dict (s_fixed (special um)) ;;
  let special_temp := kwargs_special t in
  for_each special_add_fixed (fun param_name =>
    b <-- contains special_fixed param_name ;;
    if b then ret tt
    else v <-- getitem_opt special_temp param_name ;; setitem special_fixed param_name v) ;;;
  for_each special_remove_fixed (fun param_name =>
    b <-- contains special_fixed param_name ;;
    if b then delitem special_fixed param_name else ret tt) ;;;
  let sp := special um in
  ret {| kwargs_model := kwargs_model um; kwargs_constraints := kwargs_constraints um;
         kwargs_likelihood := kwargs_likelihood um;
         lens := with_fixed (lens um) lens_fixed; source := with_fixed (source um) source_fixed;
         lens_light := with_fixed (lens_light um) lens_light_fixed;
         ps := with_fixed (ps um) ps_fixed; extinction := extinction um;
         special := {| s_init := s_init sp; s_sigma := s_sigma sp; s_fixed := special_fixed;
                       s_lower := s_lower sp; s_upper := s_upper sp |};
         _kwargs_temp := t |}.

(** Predicates on heap transformers, for stating what a method writes. *)

(** [m] keeps the heap invariant [I]. *)
Definition keeps {A} (I : heap -> Prop) (m : ST A) : Prop := forall h, I h -> I (snd (m h)).

(** Whenever [m] returns, its result satisfies [P]. *)
Definition ensures {A} (m : ST A) (P : A -> Prop) : Prop :=
  forall h, match fst (m h) with PyOk a => P a | PyRaise _ => True end.

(** [h0] is still the beginning of [h]: the dicts of [h0] are untouched. *)
Definition prefix_of (h0 h : heap) : Prop := firstn (List.length h0) h = h0.

(** [m] leaves the heap as it is. *)
Definition readonly {A} (m : ST A) : Prop := forall h, snd (m h) = h.

(** Nothing but the dict at [l] changes, and the heap keeps its length. *)
Definition only_at (l : nat) (h0 h : heap) : Prop :=
  List.length h = List.length h0 /\ forall l', l' <> l -> nth l' h [] = nth l' h0 [].

(** The dict at [l] and the heap's length are kept. *)
Definition keeps_at (l : nat) (d : pdict) (n : nat) (h : heap) : Prop :=
  nth l h [] = d /\ List.length h = n.

End UpdateManager.

(** ** Concrete inputs *)

(** A 10 by 10 grid of pixel width 0.1, and a 2 by 2 grid of width 0.5. *)
Definition pg10 : PixelGrid :=
  {| pixel_width := 0.1; num_pixel_axes := (10%nat, 10%nat);
     transform_pix2angle := ((0.1, 0), (0, 0.1)); radec_at_xy_0 := (-0.45, -0.45) |}.

Definition pg2 : PixelGrid :=
  {| pixel_width := 0.5; num_pixel_axes := (2%nat, 2%nat);
     transform_pix2angle := ((0.5, 0), (0, 0.5)); radec_at_xy_0 := (-0.25, -0.25) |}.

Definition psf_with (kind : string) : PSF :=
  {| psf_type := kind; fwhm := 0.2; kernel_point_source := [[1]];
     kernel_point_source_supersampled := fun _ => [[1]] |}.

(** A stand-in for the convolution classes' [re_size_convolve]. *)
Definition conv_low_res (_ : Convolution) (low : image) (_ : option image) : image := low.

Definition ones (n : nat) : list float := repeat 1 n.

(** Concrete inputs for the update manager: six dicts, the third holding a
    lens model list, and a manager whose lens and source groups use the first
    two dicts and whose special fixed dict is the fourth. *)
Module UpdateManagerInputs.
Import UpdateManager.

Definition hw : heap :=
  [[("a", VNum 1)]; [("b", VNum 2)]; [("lens_model_list", VBool true)];
   [("s", VNum 3)]; []; []].

Definition group_w : group :=
  {| g_init := [0%nat]; g_sigma := [0%nat]; g_fixed := [1%nat]; g_lower := [0%nat];
     g_upper := [0%nat] |}.

Definition um_base : UM :=
  {| kwargs_model := 2; kwargs_constraints := 4; kwargs_likelihood := 5;
     lens := group_w; source := group_w; lens_light := empty_group; ps := empty_group;
     extinction := empty_group;
     special := {| s_init := 0; s_sigma := 3; s_fixed := 3; s_lower := 3; s_upper := 3 |};
     _kwargs_temp := Build_temp None None None None None None |}.

Definition um_w : UM := set_init_state um_base.

Definition params_none : Params :=
  {| lens_model := None; source_model := None; lens_light_model := None;
     point_source_model := None; extinction_model := None; special_params := None |}.

End UpdateManagerInputs.

(** ** Facts about the model *)

Ltac split_cases :=
  repeat (simpl in *; match goal with
  | H : context [if ?b then _ else _] |- _ => destruct b eqn:?
  | |- context [if ?b then _ else _] => destruct b eqn:?
  | H : context [match ?x with Ok _ => _ | Err _ => _ end] |- _ => destruct x eqn:?
  | |- context [match ?x with Ok _ => _ | Err _ => _ end] => destruct x eqn:?
  end).

Ltac open_init :=
  unfold numerics_init, bind, AdaptiveGrid_new, RegularGrid_new,
    AdaptiveConvolution_new in *;
  repeat match goal with
  | pg : PixelGrid |- _ => destruct pg as [? [? ?] ? [? ?]]
  end; simpl in *.

Section Facts.

Variable conv_apply : Convolution -> image -> option image -> image.

Lemma step_state (st : Numerics) (c : call) : snd (step conv_apply st c) = st.
Proof.
  destruct c as [|f u]; simpl; [reflexivity|].
  unfold re_size_convolve. destruct (grid_flux_array2image_low_high _ f) as [[lo hi]|e];
    reflexivity.
Qed.

Lemma run_state (st : Numerics) (cs : list call) :
  run conv_apply st cs = (map (fun c => fst (step conv_apply st c)) cs, st).
Proof.
  induction cs as [|c cs IH]; simpl; [reflexivity|].
  pose proof (step_state st c) as Hs.
  destruct (step conv_apply st c) as [o st'] eqn:E. simpl in Hs. subst st'.
  rewrite IH. reflexivity.
Qed.

Lemma coordinates_length (g : Grid) :
  length (grid_coordinates_evaluate g) = (length (low_points g) + length (high_points g))%nat.
Proof.
  destruct g; cbv beta iota delta [grid_coordinates_evaluate];
    rewrite length_app, !length_map; reflexivity.
Qed.

Lemma reassembly_ok (g : Grid) (flux_array : list float) :
  length flux_array = length (grid_coordinates_evaluate g) ->
  exists low high, grid_flux_array2image_low_high g flux_array = Ok (low, high).
Proof.
  rewrite coordinates_length. intro H.
  unfold grid_flux_array2image_low_high. rewrite H, Nat.eqb_refl. simpl.
  destruct g; split_cases; eauto.
Qed.

Lemma reassembly_err (g : Grid) (flux_array : list float) :
  length flux_array <> length (grid_coordinates_evaluate g) ->
  grid_flux_array2image_low_high g flux_array = Err ShapeMismatch.
Proof.
  rewrite coordinates_length. intro H.
  unfold grid_flux_array2image_low_high.
  apply Nat.eqb_neq in H. rewrite H. reflexivity.
Qed.

Lemma init_psf_type pg psf s cm ssc k fe sup comp ps st :
  numerics_init pg psf s cm ssc k fe sup comp ps = Ok st -> _psf_type st = psf_type psf.
Proof.
  intro H. open_init. split_cases; try discriminate; inversion H; reflexivity.
Qed.

Lemma init_conv pg psf s cm ssc k fe sup comp ps st :
  numerics_init pg psf s cm ssc k fe sup comp ps = Ok st ->
  _psf_type st <> "NONE" -> exists c, _conv st = Some c.
Proof.
  intro H. open_init. split_cases; try discriminate; inversion H; subst; simpl; eauto.
  all: intro Hn; exfalso; apply Hn;
  match goal with H : String.eqb _ "NONE" = true |- _ => apply String.eqb_eq in H; exact H end.
Qed.

Lemma zeros_mask_shape (nx ny : nat) : shape_ok nx ny (zeros_mask nx ny) = true.
Proof.
  unfold shape_ok, zeros_mask. rewrite repeat_length, Nat.eqb_refl. simpl.
  apply forallb_forall. intros r Hr. apply repeat_spec in Hr. subst r.
  rewrite repeat_length. apply Nat.eqb_refl.
Qed.

(** Against a mask of shape [(nx, ny)], [AdaptiveConvolution]'s check is the
    check against [(nx, ny)]. *)
Lemma shape_transfer (nx ny : nat) (m : mask) (c : option mask) :
  shape_ok nx ny m = true ->
  opt_shape_ok (length m) (length (hd [] m)) c = opt_shape_ok nx ny c.
Proof.
  intro H. destruct c as [c|]; [|reflexivity]. simpl.
  unfold shape_ok in *. apply andb_prop in H as [Hl Hf]. apply Nat.eqb_eq in Hl.
  destruct m as [|r m'].
  - simpl in Hl. subst nx. destruct c; reflexivity.
  - simpl in Hf. apply andb_prop in Hf as [Hr _]. apply Nat.eqb_eq in Hr.
    rewrite Hl. simpl. rewrite Hr. reflexivity.
Qed.

End Facts.

(** ** The claims *)

Section Claims.

Variable conv_apply : Convolution -> image -> option image -> image.

(** C1: with [unconvolved = true], [re_size_convolve] returns the
    low-resolution image the grid reassembles from a flux array of the right
    length, multiplied by the pixel width squared, whatever the PSF kind. *)
Theorem re_size_convolve_unconvolved_identity (st : Numerics) (flux_array : list float) :
  length flux_array = length (fst (coordinates_evaluate st)) ->
  exists image_low_res image_high_res_partial,
    grid_flux_array2image_low_high (_grid st) flux_array
      = Ok (image_low_res, image_high_res_partial) /\
    fst (re_size_convolve conv_apply st flux_array true)
      = Ok (image_scale image_low_res (_pixel_width st * _pixel_width st)).
Proof.
  intro H. destruct (reassembly_ok (_grid st) flux_array H) as [lo [hi E]].
  exists lo, hi. split; [exact E|].
  unfold re_size_convolve. rewrite E. reflexivity.
Qed.

(** C2: with [supersampling_factor = 1] the constructor behaves as if
    [supersampling_convolution] were false, whatever the caller passed. *)
Theorem supersampling_factor_one_forces_no_supersampling_convolution
    pg psf cm ssc k fe sup comp ps :
  numerics_init pg psf 1 cm ssc k fe sup comp ps
  = numerics_init pg psf 1 cm false k fe sup comp ps.
Proof. reflexivity. Qed.

(** C3: for an engine built with PSF kind NONE, the [unconvolved] flag of
    [re_size_convolve] makes no difference. *)
Theorem psf_none_ignores_unconvolved pg psf s cm ssc k fe sup comp ps st flux_array :
  numerics_init pg psf s cm ssc k fe sup comp ps = Ok st ->
  psf_type psf = "NONE" ->
  re_size_convolve conv_apply st flux_array true
  = re_size_convolve conv_apply st flux_array false.
Proof.
  intros H Hn. apply init_psf_type in H. rewrite Hn in H.
  unfold re_size_convolve. rewrite H. simpl.
  destruct (grid_flux_array2image_low_high (_grid st) flux_array) as [[lo hi]|e];
    reflexivity.
Qed.

(** C4: a PSF kind other than NONE, GAUSSIAN and PIXEL makes construction
    fail with [InvalidConfiguration]; no object is built. *)
Theorem unknown_psf_type_rejected pg psf s cm ssc k fe sup comp ps :
  psf_type psf <> "NONE" -> psf_type psf <> "GAUSSIAN" -> psf_type psf <> "PIXEL" ->
  numerics_init pg psf s cm ssc k fe sup comp ps = Err InvalidConfiguration.
Proof.
  intros H1 H2 H3.
  apply String.eqb_neq in H1, H2, H3.
  open_init. rewrite H1, H2, H3. split_cases; reflexivity.
Qed.

(** C5 (as the code does it): a [flux_evaluate] mask of the wrong shape
    always fails construction; a [supersampled] mask of the wrong shape fails
    it in adaptive mode; a [compute] mask of the wrong shape fails it only for
    a PIXEL PSF in adaptive mode with supersampling convolution on (and a
    factor other than 1).  In every other configuration the [compute] mask,
    and outside adaptive mode the [supersampled] mask, are never looked at:
    construction gives the same result whatever their shape. *)
Theorem mask_shape_validation pg psf s cm ssc k fe sup comp ps :
  (opt_shape_ok (fst (num_pixel_axes pg)) (snd (num_pixel_axes pg)) fe = false ->
   numerics_init pg psf s cm ssc k fe sup comp ps = Err InvalidConfiguration) /\
  (cm = "adaptive" ->
   opt_shape_ok (fst (num_pixel_axes pg)) (snd (num_pixel_axes pg)) sup = false ->
   numerics_init pg psf s cm ssc k fe sup comp ps = Err InvalidConfiguration) /\
  (cm = "adaptive" -> psf_type psf = "PIXEL" -> s <> 1%nat -> ssc = true ->
   opt_shape_ok (fst (num_pixel_axes pg)) (snd (num_pixel_axes pg)) comp = false ->
   numerics_init pg psf s cm ssc k fe sup comp ps = Err InvalidConfiguration) /\
  ((cm <> "adaptive" \/ psf_type psf <> "PIXEL" \/ s = 1%nat \/ ssc = false) ->
   forall comp', numerics_init pg psf s cm ssc k fe sup comp' ps
                 = numerics_init pg psf s cm ssc k fe sup comp ps) /\
  (cm <> "adaptive" ->
   forall sup' comp', numerics_init pg psf s cm ssc k fe sup' comp' ps
                      = numerics_init pg psf s cm ssc k fe sup comp ps).
Proof.
  split; [|split; [|split; [|split]]].
  - intro Hfe. open_init. rewrite Hfe, andb_false_r.
    destruct (String.eqb cm "adaptive"); reflexivity.
  - intros Hcm Hsup. subst cm. open_init.
    destruct sup as [m|]; [|discriminate]. simpl in Hsup. rewrite Hsup. reflexivity.
  - intros Hcm Hp Hs Hssc Hcomp. subst cm ssc. open_init. rewrite Hp.
    apply Nat.eqb_neq in Hs. rewrite Hs. simpl.
    destruct (shape_ok _ _ _ && opt_shape_ok _ _ fe) eqn:Hg; [|reflexivity].
    apply andb_prop in Hg as [Hg _]. rewrite (shape_transfer _ _ _ _ Hg), Hcomp.
    reflexivity.
  - intros Hd comp'. open_init.
    destruct Hd as [Hd|[Hd|[Hd|Hd]]].
    + apply String.eqb_neq in Hd. rewrite Hd. reflexivity.
    + apply String.eqb_neq in Hd. rewrite Hd. reflexivity.
    + subst s. simpl. destruct (String.eqb cm "adaptive"); reflexivity.
    + subst ssc. destruct (s =? 1)%nat, (String.eqb cm "adaptive"); reflexivity.
  - intros Hd sup' comp'. apply String.eqb_neq in Hd. open_init. rewrite Hd.
    reflexivity.
Qed.

(** C6: the convolution object is fixed at construction by the PSF kind and
    the flags (with the effective [supersampling_convolution], false when the
    factor is 1), and no later call changes it. *)
Theorem convolution_strategy_selection pg psf s cm ssc k fe sup comp ps st :
  numerics_init pg psf s cm ssc k fe sup comp ps = Ok st ->
  (psf_type psf = "PIXEL" -> cm = "adaptive" -> s <> 1%nat -> ssc = true ->
   _conv st = Some (AdaptiveConvolution (kernel_point_source_supersampled psf s) s
                      (match sup with
                       | Some m => m
                       | None => zeros_mask (fst (num_pixel_axes pg)) (snd (num_pixel_axes pg))
                       end) k comp)) /\
  (psf_type psf = "PIXEL" -> cm = "regular" -> s <> 1%nat -> ssc = true ->
   _conv st = Some (SubgridKernelConvolution (kernel_point_source_supersampled psf s) s k "fft")) /\
  (psf_type psf = "PIXEL" -> (s = 1%nat \/ ssc = false) ->
   _conv st = Some (PixelKernelConvolution (kernel_point_source psf) "fft")) /\
  (psf_type psf = "GAUSSIAN" ->
   _conv st = Some (MultiGaussianConvolution [fwhm psf / (2 * PrimFloat.sqrt (2 * log2_float))]
                      [1] (pixel_width pg) s (if (s =? 1)%nat then false else ssc) 4)) /\
  (forall cs, _conv (snd (run conv_apply st cs)) = _conv st).
Proof.
  intro H. split; [|split; [|split; [|split]]].
  - intros Hp Hc Hs Hssc. subst cm ssc. apply Nat.eqb_neq in Hs.
    open_init. rewrite Hp, Hs in H. simpl in H.
    destruct (shape_ok _ _ _ && _) eqn:Hg; [|discriminate].
    apply andb_prop in Hg as [Hg _]. rewrite (shape_transfer _ _ _ _ Hg) in H.
    destruct (opt_shape_ok _ _ comp); [|discriminate].
    inversion H. reflexivity.
  - intros Hp Hc Hs Hssc. subst cm ssc. apply Nat.eqb_neq in Hs.
    open_init. rewrite Hp, Hs in H. simpl in H.
    destruct (opt_shape_ok _ _ fe); [|discriminate]. inversion H. reflexivity.
  - intros Hp Hd. open_init. rewrite Hp in H. simpl in H.
    assert (Hf : (if (s =? 1)%nat then false else ssc) = false)
      by (destruct Hd; subst; [reflexivity | destruct (s =? 1)%nat; reflexivity]).
    rewrite Hf, !andb_false_r in H. simpl in H.
    destruct (String.eqb cm "adaptive").
    + destruct (shape_ok _ _ _ && _); [|discriminate]. inversion H. reflexivity.
    + destruct (opt_shape_ok _ _ fe); [|discriminate]. inversion H. reflexivity.
  - intros Hp. open_init. rewrite Hp in H. simpl in H.
    split_cases; try discriminate; inversion H; reflexivity.
  - intro cs. rewrite run_state. reflexivity.
Qed.

(** C7: on a constructed engine, [re_size_convolve] fails with
    [ShapeMismatch] exactly when the flux array's length differs from that of
    [coordinates_evaluate]; then the call returns no image and leaves the
    object as it was, and otherwise it returns an image. *)
Theorem re_size_convolve_shape_mismatch_iff pg psf s cm ssc k fe sup comp ps st
    flux_array unconvolved :
  numerics_init pg psf s cm ssc k fe sup comp ps = Ok st ->
  (fst (re_size_convolve conv_apply st flux_array unconvolved) = Err ShapeMismatch <->
   length flux_array <> length (fst (coordinates_evaluate st))) /\
  (length flux_array = length (fst (coordinates_evaluate st)) ->
   exists img, fst (re_size_convolve conv_apply st flux_array unconvolved) = Ok img) /\
  (length flux_array <> length (fst (coordinates_evaluate st)) ->
   re_size_convolve conv_apply st flux_array unconvolved = (Err ShapeMismatch, st)).
Proof.
  intro H.
  assert (Hok : length flux_array = length (fst (coordinates_evaluate st)) ->
                exists img, fst (re_size_convolve conv_apply st flux_array unconvolved) = Ok img).
  { intro Hl. destruct (reassembly_ok _ _ Hl) as [lo [hi E]].
    unfold re_size_convolve. rewrite E.
    destruct (unconvolved || String.eqb (_psf_type st) "NONE") eqn:Hb; [eexists; reflexivity|].
    apply orb_false_iff in Hb as [_ Hb]. apply String.eqb_neq in Hb.
    destruct (init_conv _ _ _ _ _ _ _ _ _ _ _ H Hb) as [c Hc]. rewrite Hc.
    eexists; reflexivity. }
  assert (Herr : length flux_array <> length (fst (coordinates_evaluate st)) ->
                 re_size_convolve conv_apply st flux_array unconvolved = (Err ShapeMismatch, st)).
  { intro Hl. unfold re_size_convolve. rewrite (reassembly_err _ _ Hl). reflexivity. }
  split; [|split; assumption].
  split.
  - intros Hr Hl. destruct (Hok Hl) as [img Hi]. rewrite Hi in Hr. discriminate.
  - intro Hl. rewrite (Herr Hl). reflexivity.
Qed.

(** C8 (as the code computes it): on the 10 by 10 grid of width 0.1 with PSF
    kind NONE and factor 1, an all-ones flux array gives a 10 by 10 image
    whose every pixel is the binary64 value of [1 * (0.1 * 0.1)]. *)
Theorem scenario_constant_image :
  exists st,
    numerics_init pg10 (psf_with "NONE") 1 "regular" false 5 None None None 1 = Ok st /\
    fst (re_size_convolve conv_apply st (ones 100) false)
      = Ok (repeat (repeat (1 * (0.1 * 0.1)) 10) 10) /\
    1 * (0.1 * 0.1) = 0.010000000000000002.
Proof.
  eexists. split; [reflexivity|]. split; reflexivity.
Qed.

(** C9: method calls never change the object, and the outcome of each call
    in any sequence of calls is the outcome of that call on the object as
    built; equal calls in a sequence give equal outcomes. *)
Theorem engine_calls_pure (st : Numerics) (cs : list call) :
  run conv_apply st cs = (map (fun c => fst (step conv_apply st c)) cs, st) /\
  (forall i j c, nth_error cs i = Some c -> nth_error cs j = Some c ->
   nth_error (fst (run conv_apply st cs)) i = nth_error (fst (run conv_apply st cs)) j).
Proof.
  rewrite run_state. split; [reflexivity|].
  intros i j c Hi Hj. simpl. rewrite !nth_error_map, Hi, Hj. reflexivity.
Qed.

(** C10: any [compute_mode] other than "adaptive" builds a regular grid, and
    construction fails with it exactly when it fails with "regular", with
    the same error. *)
Theorem compute_mode_not_validated pg psf s cm ssc k fe sup comp ps :
  cm <> "adaptive" ->
  (forall st, numerics_init pg psf s cm ssc k fe sup comp ps = Ok st ->
   _grid st = RegularGrid (fst (num_pixel_axes pg)) (snd (num_pixel_axes pg))
                (transform_pix2angle pg) (fst (radec_at_xy_0 pg)) (snd (radec_at_xy_0 pg))
                s fe) /\
  (forall e, numerics_init pg psf s cm ssc k fe sup comp ps = Err e <->
             numerics_init pg psf s "regular" ssc k fe sup comp ps = Err e).
Proof.
  intro Hcm. apply String.eqb_neq in Hcm. split.
  - intros st H. open_init. rewrite Hcm in H.
    split_cases; try discriminate; inversion H; reflexivity.
  - intro e. open_init. rewrite Hcm. split_cases; split; intro X; congruence.
Qed.

End Claims.

(** ** Witnesses *)

Lemma re_size_convolve_unconvolved_identity_witness :
  exists st, numerics_init pg2 (psf_with "PIXEL") 2 "adaptive" true 3 None
               (Some [[true; false]; [false; false]]) None 1 = Ok st /\
  length (ones 8) = length (fst (coordinates_evaluate st)) /\
  exists lo hi,
    grid_flux_array2image_low_high (_grid st) (ones 8) = Ok (lo, hi) /\
    fst (re_size_convolve conv_low_res st (ones 8) true)
      = Ok (image_scale lo (_pixel_width st * _pixel_width st)).
Proof.
  eexists. split; [reflexivity|]. split; [vm_compute; reflexivity|].
  apply re_size_convolve_unconvolved_identity. vm_compute. reflexivity.
Defined.

Lemma psf_none_ignores_unconvolved_witness :
  exists st, numerics_init pg10 (psf_with "NONE") 1 "regular" false 5 None None None 1 = Ok st /\
  re_size_convolve conv_low_res st (ones 100) true
  = re_size_convolve conv_low_res st (ones 100) false.
Proof.
  eexists. split; [reflexivity|].
  eapply (psf_none_ignores_unconvolved conv_low_res pg10 (psf_with "NONE") 1 "regular" false 5
            None None None 1); [reflexivity | reflexivity].
Defined.

Lemma unknown_psf_type_rejected_witness :
  numerics_init pg10 (psf_with "MOFFAT") 1 "regular" false 5 None None None 1
  = Err InvalidConfiguration.
Proof.
  apply unknown_psf_type_rejected; discriminate.
Defined.

Lemma mask_shape_validation_witness :
  opt_shape_ok 2 2 (Some [[true]]) = false /\
  numerics_init pg2 (psf_with "PIXEL") 2 "adaptive" true 3 None None (Some [[true]]) 1
  = Err InvalidConfiguration.
Proof.
  split; [reflexivity|].
  destruct (mask_shape_validation pg2 (psf_with "PIXEL") 2 "adaptive" true 3 None None
              (Some [[true]]) 1) as [_ [_ [H3 _]]].
  apply H3; [reflexivity | reflexivity | discriminate | reflexivity | reflexivity].
Defined.

Lemma convolution_strategy_selection_witness :
  exists st,
    numerics_init pg2 (psf_with "PIXEL") 2 "regular" true 3 None None None 1 = Ok st /\
    _conv st = Some (SubgridKernelConvolution [[1]] 2 3 "fft").
Proof.
  eexists. split; [reflexivity|].
  destruct (convolution_strategy_selection conv_low_res pg2 (psf_with "PIXEL") 2 "regular" true 3
              None None None 1 _ eq_refl) as [_ [H2 _]].
  apply H2; [reflexivity | reflexivity | discriminate | reflexivity].
Defined.

Lemma re_size_convolve_shape_mismatch_iff_witness :
  exists st,
    numerics_init pg2 (psf_with "GAUSSIAN") 2 "adaptive" true 3 None
      (Some [[true; false]; [false; false]]) None 1 = Ok st /\
    re_size_convolve conv_low_res st (ones 3) false = (Err ShapeMismatch, st).
Proof.
  eexists. split; [reflexivity|].
  destruct (re_size_convolve_shape_mismatch_iff conv_low_res pg2 (psf_with "GAUSSIAN") 2
              "adaptive" true 3 None (Some [[true; false]; [false; false]]) None 1 _
              (ones 3) false eq_refl) as [_ [_ H3]].
  apply H3. vm_compute. discriminate.
Defined.

Lemma engine_calls_pure_witness :
  exists st,
    numerics_init pg2 (psf_with "PIXEL") 2 "regular" true 3 None None None 1 = Ok st /\
    nth_error (fst (run conv_low_res st [ReSizeConvolve (ones 16) false; CoordinatesEvaluate;
                                         ReSizeConvolve (ones 16) false])) 0
    = nth_error (fst (run conv_low_res st [ReSizeConvolve (ones 16) false; CoordinatesEvaluate;
                                           ReSizeConvolve (ones 16) false])) 2.
Proof.
  eexists. split; [reflexivity|].
  apply (proj2 (engine_calls_pure conv_low_res _ _) 0%nat 2%nat (ReSizeConvolve (ones 16) false));
    reflexivity.
Defined.

Lemma compute_mode_not_validated_witness :
  exists st,
    numerics_init pg2 (psf_with "NONE") 2 "adaptve" false 5 None None None 1 = Ok st /\
    _grid st = RegularGrid 2 2 ((0.5, 0), (0, 0.5)) (-0.25) (-0.25) 2 None.
Proof.
  eexists. split; [reflexivity|].
  destruct (compute_mode_not_validated pg2 (psf_with "NONE") 2 "adaptve" false 5 None None None 1)
    as [H1 _]; [discriminate|].
  apply H1. reflexivity.
Defined.

(** ** Counterexamples *)

(** C5: a [compute] mask of shape (1, 1) on a 2 by 2 grid in regular mode is
    accepted: construction succeeds. *)
Lemma misshaped_compute_mask_accepted :
  opt_shape_ok 2 2 (Some [[true]]) = false /\
  exists st,
    numerics_init pg2 (psf_with "NONE") 1 "regular" false 5 None None (Some [[true]]) 1 = Ok st.
Proof.
  split; [reflexivity|]. eexists. reflexivity.
Defined.

(** C8: in the scenario every pixel is 0.010000000000000002, the binary64
    value of [1 * 0.1 ** 2], not the double 0.01. *)
Lemma scenario_pixels_not_0_01 :
  exists st,
    numerics_init pg10 (psf_with "NONE") 1 "regular" false 5 None None None 1 = Ok st /\
    fst (re_size_convolve conv_low_res st (ones 100) false)
      = Ok (repeat (repeat 0.010000000000000002 10) 10) /\
    repeat (repeat 0.010000000000000002 10) 10 <> repeat (repeat 0.01 10) 10.
Proof.
  eexists. split; [reflexivity|]. split; [vm_compute; reflexivity|].
  intro Hc. apply (f_equal (fun i => PrimFloat.eqb (pixel_at i 0%nat 0%nat) 0.01)) in Hc.
  vm_compute in Hc. discriminate.
Defined.

(** ** The update manager *)

Module UpdateManagerFacts.
Import UpdateManager UpdateManagerInputs.
Local Open Scope nat_scope.

Lemma list_set_length {A} (xs : list A) n a : List.length (list_set xs n a) = List.length xs.
Proof. revert n; induction xs as [|x xs IH]; intros [|n]; simpl; auto. Qed.

Lemma nth_list_set_eq {A} (xs : list A) n a d :
  (n < List.length xs)%nat -> nth n (list_set xs n a) d = a.
Proof. revert n; induction xs as [|x xs IH]; intros [|n] Hn; simpl in *; auto; try lia. apply IH; lia. Qed.

Lemma nth_list_set_neq {A} (xs : list A) n m a d :
  m <> n -> nth m (list_set xs n a) d = nth m xs d.
Proof.
  revert n m; induction xs as [|x xs IH]; intros [|n] [|m] Hn; simpl; auto; try congruence.
Qed.

Lemma firstn_list_set {A} (xs : list A) n l a :
  (n <= l)%nat -> firstn n (list_set xs l a) = firstn n xs.
Proof.
  revert n l; induction xs as [|x xs IH]; intros [|n] [|l] Hl; simpl; auto; try lia.
  f_equal; apply IH; lia.
Qed.

Lemma py_index_nat {A} (xs : list A) (j : nat) : py_index xs (Z.of_nat j) = nth_error xs j.
Proof.
  unfold py_index.
  destruct (Z.of_nat j <? - Z.of_nat (List.length xs))%Z eqn:E1; [apply Z.ltb_lt in E1; lia|].
  destruct (Z.of_nat (List.length xs) <=? Z.of_nat j)%Z eqn:E2; simpl.
  - apply Z.leb_le in E2. symmetry; apply nth_error_None; lia.
  - destruct (Z.of_nat j <? 0)%Z eqn:E3; [apply Z.ltb_lt in E3; lia|]. now rewrite Nat2Z.id.
Qed.

Lemma py_index_In {A} (xs : list A) i a : py_index xs i = Some a -> In a xs.
Proof.
  unfold py_index. destruct (_ || _)%Z; [discriminate|]. apply nth_error_In.
Qed.

Lemma py_index_map {A B} (f : A -> B) xs i : py_index (map f xs) i = option_map f (py_index xs i).
Proof.
  unfold py_index. rewrite length_map. destruct (_ || _)%Z; auto. apply nth_error_map.
Qed.

Lemma keeps_ret {A} I (a : A) : keeps I (ret a).
Proof. intros h H; exact H. Qed.

Lemma keeps_raise {A} I e : keeps I (@raise A e).
Proof. intros h H; exact H. Qed.

Lemma keeps_bind {A B} I (m : ST A) (k : A -> ST B) (P : A -> Prop) :
  keeps I m -> ensures m P -> (forall a, P a -> keeps I (k a)) -> keeps I (bindST m k).
Proof.
  intros Hm He Hk h Hh. unfold bindST. specialize (He h). specialize (Hm h Hh).
  destruct (m h) as [[a|e] h']; simpl in *; auto. apply Hk; auto.
Qed.

Lemma ensures_any {A} (m : ST A) : ensures m (fun _ => True).
Proof. intros h. destruct (fst (m h)); auto. Qed.

Lemma keeps_for_each {A} I (xs : list A) body :
  (forall x, In x xs -> keeps I (body x)) -> keeps I (for_each xs body).
Proof.
  induction xs as [|x xs IH]; intros Hb; simpl.
  - apply keeps_ret.
  - apply (keeps_bind I _ _ (fun _ => True)); [apply Hb; left; auto | apply ensures_any |].
    intros _ _. apply IH. intros; apply Hb; right; auto.
Qed.

Lemma keeps_for_enum {A} I j (xs : list A) body :
  (forall j x, keeps I (body j x)) -> keeps I (for_enum j xs body).
Proof.
  revert j; induction xs as [|x xs IH]; intros j Hb; simpl.
  - apply keeps_ret.
  - apply (keeps_bind I _ _ (fun _ => True)); [apply Hb | apply ensures_any |].
    intros _ _. apply IH; auto.
Qed.

Lemma keeps_getidx {A} I (xs : list A) i : keeps I (getidx xs i).
Proof. unfold getidx; destruct (py_index xs i); [apply keeps_ret | apply keeps_raise]. Qed.

Lemma ensures_getidx {A} (xs : list A) i : ensures (getidx xs i) (fun a => In a xs).
Proof.
  intros h; unfold getidx. destruct (py_index xs i) eqn:E; simpl; auto.
  eapply py_index_In; eauto.
Qed.

Lemma keeps_load I l : keeps I (load l).
Proof. intros h H; unfold load; destruct (nth_error h l); exact H. Qed.

Lemma prefix_of_len h0 h : prefix_of h0 h -> List.length h0 <= List.length h.
Proof. unfold prefix_of; intros H. rewrite <- H at 1. rewrite length_firstn. lia. Qed.

Lemma prefix_of_app h ds : prefix_of h (app h ds).
Proof. unfold prefix_of. rewrite firstn_app, Nat.sub_diag, firstn_all; simpl. apply app_nil_r. Qed.

Lemma keeps_setitem_fresh h0 l k v :
  (List.length h0 <= l)%nat -> keeps (prefix_of h0) (setitem l k v).
Proof.
  intros Hl h H. unfold setitem, bindST, load. destruct (nth_error h l); simpl; auto.
  unfold store; simpl. unfold prefix_of in *. rewrite firstn_list_set; auto.
Qed.

Lemma deepcopy_aux_fresh n0 memo ls h :
  (forall a b, assoc memo a = Some b -> (n0 <= b)%nat) -> (n0 <= List.length h)%nat ->
  (exists ds, snd (deepcopy_aux memo ls h) = app h ds) /\
  match fst (deepcopy_aux memo ls h) with
  | PyOk r => Forall (fun l => n0 <= l)%nat r
  | PyRaise _ => True
  end.
Proof.
  revert memo h; induction ls as [|l ls IH]; intros memo h Hm Hn; simpl.
  - split; [exists []; rewrite app_nil_r; auto | constructor].
  - destruct (assoc memo l) as [b|] eqn:Ea.
    + unfold bindST. destruct (IH memo h Hm Hn) as [[ds Hds] Hr].
      destruct (deepcopy_aux memo ls h) as [[r|e] h'] eqn:E; simpl in *; split; eauto;
        try (constructor; eauto).
    + unfold bindST, load. destruct (nth_error h l) as [d|] eqn:El; simpl.
      2: { split; [exists []; rewrite app_nil_r; auto | auto]. }
      unfold alloc.
      assert (Hm' : forall a b, assoc ((l, List.length h) :: memo) a = Some b -> (n0 <= b)%nat).
      { intros a b. simpl. destruct (l =? a)%nat; [intros H; inversion H; lia | apply Hm]. }
      assert (Hn' : (n0 <= List.length (app h [d]))%nat) by (rewrite length_app; lia).
      destruct (IH _ _ Hm' Hn') as [[ds Hds] Hr].
      destruct (deepcopy_aux ((l, List.length h) :: memo) ls (app h [d])) as [[r|e] h'] eqn:E;
        simpl in *; (split; [exists (d :: ds); rewrite Hds, <- app_assoc; auto |]); auto;
        try (constructor; auto).
Qed.

Lemma update_limit_keeps_prefix ch prev h0 h :
  prefix_of h0 h -> prefix_of h0 (snd (_update_limit ch prev h)).
Proof.
  intros H0. pose proof (prefix_of_len _ _ H0) as Hlen0.
  unfold _update_limit, deepcopy_dicts. unfold bindST at 1.
  destruct (deepcopy_aux_fresh (List.length h) [] prev h) as [[ds Hds] Hr]; [discriminate | lia |].
  assert (H1 : prefix_of h0 (app h ds)).
  { unfold prefix_of in *. rewrite firstn_app. replace (List.length h0 - List.length h) with 0 by lia.
    rewrite app_nil_r. exact H0. }
  destruct (deepcopy_aux [] prev h) as [[r|e] h1] eqn:E; simpl in *; subst h1; [|exact H1].
  refine (keeps_bind (prefix_of h0) _ _ (fun _ => True) _ (ensures_any _) _ _ H1).
  - apply keeps_for_each. intros [[i names] values] _. apply keeps_for_enum. intros j x.
    apply (keeps_bind _ _ _ (fun _ => True)); [apply keeps_getidx | apply ensures_any |]. intros v _.
    apply (keeps_bind _ _ _ (fun a => In a r)); [apply keeps_getidx | apply ensures_getidx |].
    intros d Hd. apply keeps_setitem_fresh. rewrite Forall_forall in Hr. specialize (Hr d Hd). lia.
  - intros; apply keeps_ret.
Qed.

(** [_update_limit] never writes to a dict it is given: whatever the
    outcome, the heap it started from is still the beginning of the heap it
    leaves, so the previous limit dicts are as they were and only the deep
    copy is updated. *)
Theorem _update_limit_keeps_existing_dicts ch prev h :
  firstn (List.length h) (snd (_update_limit ch prev h)) = h.
Proof.
  apply update_limit_keeps_prefix. unfold prefix_of. apply firstn_all.
Qed.

Lemma bind_assoc {A B C} (m : ST A) (f : A -> ST B) (g : B -> ST C) h :
  bindST (bindST m f) g h = bindST m (fun a => bindST (f a) g) h.
Proof. unfold bindST. destruct (m h) as [[a|e] h']; auto. Qed.

Lemma bind_ok {A B} (m : ST A) (k : A -> ST B) h a h' :
  m h = (PyOk a, h') -> bindST m k h = k a h'.
Proof. intros E. unfold bindST. now rewrite E. Qed.

Lemma bind_err {A B} (m : ST A) (k : A -> ST B) h e h' :
  m h = (PyRaise e, h') -> bindST m k h = (PyRaise e, h').
Proof. intros E. unfold bindST. now rewrite E. Qed.

Lemma bind_ret {A B} (a : A) (k : A -> ST B) h : bindST (ret a) k h = k a h.
Proof. reflexivity. Qed.

Lemma bind_getidx_ok {A B} (xs : list A) i a (k : A -> ST B) h :
  py_index xs i = Some a -> bindST (getidx xs i) k h = k a h.
Proof. intros E. unfold bindST, getidx. now rewrite E. Qed.

Lemma bind_getidx_err {A B} (xs : list A) i (k : A -> ST B) h :
  py_index xs i = None -> bindST (getidx xs i) k h = (PyRaise IndexError, h).
Proof. intros E. unfold bindST, getidx. now rewrite E. Qed.

Lemma setitem_ok l k v h d :
  nth_error h l = Some d -> setitem l k v h = (PyOk tt, list_set h l (dict_set d k v)).
Proof. intros E. unfold setitem, bindST, load. now rewrite E. Qed.

Lemma bind_setitem_ok {B} l k v h d (g : unit -> ST B) :
  nth_error h l = Some d -> bindST (setitem l k v) g h = g tt (list_set h l (dict_set d k v)).
Proof. intros E. unfold bindST. now rewrite (setitem_ok l k v h d E). Qed.

Lemma for_enum_cons {A} j (x : A) xs body h :
  for_enum j (x :: xs) body h = bindST (body j x) (fun _ => for_enum (S j) xs body) h.
Proof. reflexivity. Qed.

Lemma for_each_cons {A} (x : A) xs body h :
  for_each (x :: xs) body h = bindST (body x) (fun _ => for_each xs body) h.
Proof. reflexivity. Qed.

Lemma nth_error_seq_lt n m k : k < m -> nth_error (seq n m) k = Some (n + k).
Proof. intros H. rewrite (nth_error_nth' _ 0) by (rewrite length_seq; lia). now rewrite seq_nth. Qed.

Lemma py_index_pos {A B} (xs : list A) (ys : list B) i a :
  List.length ys = List.length xs -> py_index xs i = Some a ->
  exists k, nth_error xs k = Some a /\ py_index ys i = nth_error ys k.
Proof.
  unfold py_index; intros Hl. rewrite Hl. destruct (_ || _)%Z; [discriminate|]. eauto.
Qed.

Lemma py_index_none {A B} (xs : list A) (ys : list B) i :
  List.length ys = List.length xs -> py_index xs i = None -> py_index ys i = None.
Proof.
  unfold py_index; intros Hl. rewrite Hl. destruct (_ || _)%Z; auto.
  intros H. apply nth_error_None in H. apply nth_error_None. lia.
Qed.

Lemma list_set_app_r {A} (h xs : list A) k a :
  list_set (app h xs) (List.length h + k) a = app h (list_set xs k a).
Proof. induction h as [|x h IH]; simpl; auto. now rewrite IH. Qed.

Lemma list_set_map_nodup {B} (G : nat -> B) prev k l a :
  NoDup prev -> nth_error prev k = Some l ->
  list_set (map G prev) k a = map (fun l' => if (l =? l')%nat then a else G l') prev.
Proof.
  revert k; induction prev as [|x prev IH]; intros [|k] Hnd Hk; simpl in *; try discriminate.
  - inversion Hk; subst. rewrite Nat.eqb_refl. f_equal.
    inversion Hnd; subst. apply map_ext_in. intros l' Hl'.
    destruct (l =? l')%nat eqn:E; auto. apply Nat.eqb_eq in E; subst; contradiction.
  - inversion Hnd; subst. rewrite (IH k); auto.
    destruct (l =? x)%nat eqn:E; auto. apply Nat.eqb_eq in E; subst.
    apply nth_error_In in Hk. contradiction.
Qed.

Lemma skipn_nth_error {A} (xs : list A) j v :
  nth_error xs j = Some v -> skipn j xs = v :: skipn (S j) xs.
Proof.
  revert j; induction xs as [|x xs IH]; intros [|j] H; simpl in *; try discriminate.
  - now inversion H.
  - now apply IH.
Qed.

Lemma deepcopy_aux_nodup memo ls h :
  NoDup ls -> (forall l, In l ls -> assoc memo l = None) ->
  Forall (fun l => l < List.length h) ls ->
  deepcopy_aux memo ls h =
  (PyOk (seq (List.length h) (List.length ls)), app h (map (fun l => nth l h []) ls)).
Proof.
  revert memo h; induction ls as [|l ls IH]; intros memo h Hnd Hm Hv; simpl.
  - rewrite app_nil_r; reflexivity.
  - inversion Hnd; subst. inversion Hv; subst. rewrite (Hm l (or_introl eq_refl)).
    unfold bindST, load. rewrite (nth_error_nth' h [] H3). unfold alloc.
    rewrite IH; auto.
    + simpl. rewrite length_app, Nat.add_1_r, <- app_assoc. simpl. unfold ret.
      do 3 f_equal. apply map_ext_in. intros l' Hl'. rewrite app_nth1; auto.
      rewrite Forall_forall in H4; auto.
    + intros l' Hl'. simpl. destruct (l =? l')%nat eqn:E; [|apply Hm; simpl; auto].
      apply Nat.eqb_eq in E; subst; contradiction.
    + eapply Forall_impl; [|exact H4]. intros a Ha. cbv beta in *. rewrite length_app; simpl; lia.
Qed.

Lemma deepcopy_aux_ok memo ls h :
  (forall a b, assoc memo a = Some b -> b < List.length h) ->
  Forall (fun l => l < List.length h) ls ->
  exists r ds, deepcopy_aux memo ls h = (PyOk r, app h ds) /\
    List.length r = List.length ls /\ Forall (fun l => l < List.length (app h ds)) r.
Proof.
  revert memo h; induction ls as [|l ls IH]; intros memo h Hm Hv; simpl.
  - exists [], []. rewrite app_nil_r. auto.
  - inversion Hv; subst. destruct (assoc memo l) as [b|] eqn:Ea.
    + destruct (IH memo h Hm H2) as (r & ds & E & Hl & Hr).
      unfold bindST. rewrite E. exists (b :: r), ds. simpl. repeat split; auto.
      constructor; auto. specialize (Hm _ _ Ea). rewrite length_app; lia.
    + unfold bindST, load. rewrite (nth_error_nth' h [] H1). unfold alloc.
      destruct (IH ((l, List.length h) :: memo) (app h [nth l h []])) as (r & ds & E & Hl & Hr).
      * intros a b. simpl. rewrite length_app; simpl.
        destruct (l =? a)%nat; [intros H; inversion H; lia|]. intros H; specialize (Hm _ _ H); lia.
      * eapply Forall_impl; [|exact H2]. intros a Ha. cbv beta in *. rewrite length_app; simpl; lia.
      * rewrite E. exists (List.length h :: r), (nth l h [] :: ds).
        rewrite <- app_assoc in *. simpl. repeat split; auto.
        constructor; auto. rewrite length_app; simpl; lia.
Qed.

Lemma limit_names_nodup n prev (G : nat -> pdict) i l k names values j h :
  NoDup prev -> nth_error prev k = Some l ->
  py_index (seq n (List.length prev)) i = Some (n + k) -> List.length h = n ->
  j + List.length names <= List.length values ->
  for_enum j names (fun j param_name =>
      v <-- getidx values (Z.of_nat j) ;;
      d <-- getidx (seq n (List.length prev)) i ;;
      setitem d param_name v) (app h (map G prev))
  = (PyOk tt, app h (map (fun l' => if (l =? l')%nat
        then fold_left (fun d '(name, v) => dict_set d name v) (combine names (skipn j values)) (G l)
        else G l') prev)).
Proof.
  intros Hnd Hk Hi Hh. revert j G; induction names as [|name names IH]; intros j G Hj.
  - simpl. unfold ret. f_equal. f_equal. apply map_ext. intros l'.
    destruct (l =? l')%nat eqn:E; auto. apply Nat.eqb_eq in E; subst; auto.
  - assert (Hv : j < List.length values) by (simpl in Hj; lia).
    destruct (nth_error values j) as [v|] eqn:Ev; [|apply nth_error_None in Ev; lia].
    rewrite for_enum_cons, bind_assoc, (bind_getidx_ok _ _ v) by (rewrite py_index_nat; exact Ev).
    cbv beta. rewrite bind_assoc, (bind_getidx_ok _ _ (n + k)) by exact Hi. cbv beta.
    assert (Hk' : k < List.length prev) by (apply nth_error_Some; congruence).
    rewrite (bind_setitem_ok _ _ _ _ (G l)).
    2: { rewrite nth_error_app2 by lia. replace (n + k - List.length h) with k by lia.
         rewrite nth_error_map, Hk. reflexivity. }
    subst n. rewrite list_set_app_r, (list_set_map_nodup G prev k l); auto.
    rewrite IH by (simpl in Hj; lia). rewrite (skipn_nth_error values j v Ev). simpl.
    do 2 f_equal. apply map_ext. intros l'.
    destruct (l =? l')%nat eqn:E; auto. rewrite Nat.eqb_refl. reflexivity.
Qed.

Lemma limit_loop_nodup ch prev h (G : nat -> pdict) :
  NoDup prev ->
  Forall (fun '(i_model, names, values) =>
            names = [] \/ (py_index prev i_model <> None /\
                           List.length names <= List.length values)) ch ->
  for_each ch (fun c =>
    let '(i_model, change_names, values) := c in
    for_enum 0 change_names (fun j param_name =>
      v <-- getidx values (Z.of_nat j) ;;
      d <-- getidx (seq (List.length h) (List.length prev)) i_model ;;
      setitem d param_name v)) (app h (map G prev))
  = (PyOk tt, app h (map (fun l => fold_left (fun d '(i_model, names, values) =>
        match py_index prev i_model with
        | Some l' => if (l' =? l)%nat
                     then fold_left (fun d '(name, v) => dict_set d name v) (combine names values) d
                     else d
        | None => d
        end) ch (G l)) prev)).
Proof.
  intros Hnd. revert G; induction ch as [|[[i names] values] ch IH]; intros G Hok.
  - reflexivity.
  - inversion Hok as [|? ? He Hrest]; subst. rewrite for_each_cons.
    destruct He as [-> | [Hi Hlen]].
    + cbn [for_enum]. rewrite bind_ret.
      rewrite IH by auto. f_equal. f_equal. apply map_ext. intros l. simpl.
      destruct (py_index prev i); [destruct (_ =? _)%nat|]; reflexivity.
    + destruct (py_index prev i) as [l|] eqn:Ei; [|congruence].
      destruct (py_index_pos prev (seq (List.length h) (List.length prev)) i l)
        as (k & Hk & Hs); [apply length_seq | auto |].
      assert (Hk' : k < List.length prev) by (apply nth_error_Some; congruence).
      rewrite nth_error_seq_lt in Hs by auto.
      unfold bindST at 1.
      rewrite (limit_names_nodup (List.length h) prev G i l k names values 0 h)
        by (first [assumption | reflexivity | simpl; lia]).
      rewrite IH by auto. simpl. f_equal. f_equal. apply map_ext. intros l'.
      f_equal. rewrite Ei. destruct (l =? l')%nat eqn:E; auto. apply Nat.eqb_eq in E; subst; reflexivity.
Qed.

(** When the previous limit dicts are distinct and valid, and every
    change entry with names refers to an existing model and has at least as
    many values as names, [_update_limit] returns fresh copies, appended to the
    heap, of the previous dicts, with each name set to the value at the same
    position, the entries applied in order. *)
Theorem _update_limit_closed_form ch prev h :
  NoDup prev -> Forall (fun l => l < List.length h) prev ->
  Forall (fun '(i_model, names, values) =>
            names = [] \/ (py_index prev i_model <> None /\
                           List.length names <= List.length values)) ch ->
  _update_limit ch prev h =
  (PyOk (seq (List.length h) (List.length prev)),
   app h (map (fun l => fold_left (fun d '(i_model, names, values) =>
        match py_index prev i_model with
        | Some l' => if (l' =? l)%nat
                     then fold_left (fun d '(name, v) => dict_set d name v) (combine names values) d
                     else d
        | None => d
        end) ch (nth l h [])) prev)).
Proof.
  intros Hnd Hv Hok. unfold _update_limit, deepcopy_dicts.
  rewrite (bind_ok _ _ _ _ _ (deepcopy_aux_nodup [] prev h Hnd (fun _ _ => eq_refl) Hv)).
  cbv beta. rewrite (bind_ok _ _ _ _ _ (limit_loop_nodup ch prev h (fun l => nth l h []) Hnd Hok)).
  reflexivity.
Qed.

Lemma limit_names_outcome r i names values j h :
  Forall (fun l => l < List.length h) r ->
  let res := for_enum j names (fun j param_name =>
      v <-- getidx values (Z.of_nat j) ;;
      d <-- getidx r i ;;
      setitem d param_name v) h in
  List.length (snd res) = List.length h /\
  ((fst res = PyOk tt /\
      (names = [] \/ (py_index r i <> None /\ j + List.length names <= List.length values))) \/
   (fst res = PyRaise IndexError /\
      ~ (names = [] \/ (py_index r i <> None /\ j + List.length names <= List.length values)))).
Proof.
  revert j h; induction names as [|name names IH]; intros j h Hr; cbv zeta.
  - simpl. split; auto.
  - rewrite for_enum_cons, bind_assoc.
    destruct (nth_error values j) as [v|] eqn:Ev.
    2: { rewrite bind_getidx_err by (rewrite py_index_nat; exact Ev). simpl.
         apply nth_error_None in Ev. split; auto. right; split; auto.
         intros [H|[_ H]]; [discriminate | lia]. }
    rewrite (bind_getidx_ok _ _ v) by (rewrite py_index_nat; exact Ev). cbv beta.
    rewrite bind_assoc. destruct (py_index r i) as [d|] eqn:Ei.
    2: { rewrite bind_getidx_err by exact Ei. simpl. split; auto. right; split; auto.
         intros [H|[H _]]; [discriminate | contradiction]. }
    rewrite (bind_getidx_ok _ _ d) by exact Ei. cbv beta.
    assert (Hd : d < List.length h).
    { rewrite Forall_forall in Hr. apply Hr. eapply py_index_In; eauto. }
    rewrite (bind_setitem_ok _ _ _ _ (nth d h [])) by (apply nth_error_nth'; exact Hd).
    assert (Hr' : Forall (fun l => l < List.length (list_set h d (dict_set (nth d h []) name v))) r)
      by (rewrite list_set_length; exact Hr).
    destruct (IH (S j) _ Hr') as [Hlen [[Hok Hc] | [Herr Hc]]].
    + rewrite list_set_length in Hlen. split; auto. left; split; auto.
      right; split; [congruence|]. simpl.
      assert (Hj : j < List.length values) by (apply nth_error_Some; congruence).
      destruct Hc as [->|[_ Hc]]; simpl; lia.
    + rewrite list_set_length in Hlen. split; auto. right; split; auto.
      intros [H|[_ H]]; [discriminate|]. apply Hc. right; split; [congruence|]. simpl in H; lia.
Qed.

Lemma limit_loop_outcome ch r h :
  Forall (fun l => l < List.length h) r ->
  let res := for_each ch (fun c =>
    let '(i_model, change_names, values) := c in
    for_enum 0 change_names (fun j param_name =>
      v <-- getidx values (Z.of_nat j) ;;
      d <-- getidx r i_model ;;
      setitem d param_name v)) h in
  (fst res = PyOk tt /\
     Forall (fun '(i_model, names, values) =>
               names = [] \/ (py_index r i_model <> None /\
                              List.length names <= List.length values)) ch) \/
  (fst res = PyRaise IndexError /\
     ~ Forall (fun '(i_model, names, values) =>
                 names = [] \/ (py_index r i_model <> None /\
                                List.length names <= List.length values)) ch).
Proof.
  revert h; induction ch as [|[[i names] values] ch IH]; intros h Hr; cbv zeta.
  - left; split; auto.
  - rewrite for_each_cons.
    destruct (limit_names_outcome r i names values 0 h Hr) as [Hlen [[Hok Hc] | [Herr Hc]]];
      cbv zeta in *.
    + match type of Hok with fst ?X = _ => destruct X as [res h1] eqn:E end.
      simpl in Hok, Hlen; subst res.
      rewrite (bind_ok _ _ _ _ _ E). cbv beta.
      assert (Hr1 : Forall (fun l => l < List.length h1) r) by (rewrite Hlen; exact Hr).
      destruct (IH h1 Hr1) as [[Hok' Hc'] | [Herr' Hc']].
      * left; split; auto.
      * right; split; auto. intros H; inversion H; subst; contradiction.
    + match type of Herr with fst ?X = _ => destruct X as [res h1] eqn:E end.
      simpl in Herr; subst res.
      rewrite (bind_err _ _ _ _ _ E). right; split; auto.
      intros H; inversion H; subst; contradiction.
Qed.

Lemma limit_entry_ok_iff (r prev : list nat) (e : change) :
  List.length r = List.length prev ->
  ((let '(i_model, names, values) := e in
    names = [] \/ (py_index r i_model <> None /\ List.length names <= List.length values)) <->
   (let '(i_model, names, values) := e in
    names = [] \/ (py_index prev i_model <> None /\ List.length names <= List.length values))).
Proof.
  destruct e as [[i names] values]; intros Hl.
  split; intros [H|[Hi H]]; auto; right; split; auto; intros Hn; apply Hi.
  - exact (py_index_none prev r i Hl Hn).
  - exact (py_index_none r prev i (eq_sym Hl) Hn).
Qed.

(** With valid previous dicts, [_update_limit] succeeds exactly when
    every change entry with names has a valid model index and enough values,
    and raises IndexError otherwise. *)
Theorem _update_limit_raises_iff_bad_entry ch prev h :
  Forall (fun l => l < List.length h) prev ->
  ((exists r, fst (_update_limit ch prev h) = PyOk r) <->
     Forall (fun '(i_model, names, values) =>
               names = [] \/ (py_index prev i_model <> None /\
                              List.length names <= List.length values)) ch) /\
  (fst (_update_limit ch prev h) = PyRaise IndexError <->
     ~ Forall (fun '(i_model, names, values) =>
                 names = [] \/ (py_index prev i_model <> None /\
                                List.length names <= List.length values)) ch).
Proof.
  intros Hv. unfold _update_limit, deepcopy_dicts.
  destruct (deepcopy_aux_ok [] prev h) as (r & ds & E & Hl & Hr); [discriminate | exact Hv |].
  rewrite (bind_ok _ _ _ _ _ E). cbv beta.
  assert (Hiff : Forall (fun '(i_model, names, values) =>
               names = [] \/ (py_index r i_model <> None /\
                              List.length names <= List.length values)) ch <->
                 Forall (fun '(i_model, names, values) =>
               names = [] \/ (py_index prev i_model <> None /\
                              List.length names <= List.length values)) ch).
  { rewrite !Forall_forall. split; intros H e He; specialize (H e He);
      [rewrite <- limit_entry_ok_iff | rewrite limit_entry_ok_iff]; eauto. }
  destruct (limit_loop_outcome ch r (app h ds) Hr) as [[Hok Hc] | [Herr Hc]]; cbv zeta in *.
  - match type of Hok with fst ?X = _ => destruct X as [res h1] eqn:E1 end.
    simpl in Hok; subst res.
    rewrite (bind_ok _ _ _ _ _ E1). simpl. split; split; eauto.
    + intros _. apply Hiff; auto.
    + discriminate.
    + intros H; exfalso; apply H, Hiff; auto.
  - match type of Herr with fst ?X = _ => destruct X as [res h1] eqn:E1 end.
    simpl in Herr; subst res.
    rewrite (bind_err _ _ _ _ _ E1). simpl. split; split; auto.
    + intros [x Hx]; discriminate.
    + intros H; exfalso; apply Hc, Hiff; auto.
    + intros _ H; apply Hc, Hiff; auto.
Qed.

Lemma bind_load_ok {B} l (k : pdict -> ST B) h d :
  nth_error h l = Some d -> bindST (load l) k h = k d h.
Proof. intros E. unfold bindST, load. now rewrite E. Qed.

Lemma list_set_nth_id {A} (xs : list A) n d :
  n < List.length xs -> list_set xs n (nth n xs d) = xs.
Proof.
  revert n; induction xs as [|x xs IH]; intros [|n] Hn; simpl in *; auto; try lia.
  f_equal; apply IH; lia.
Qed.

Lemma nth_list_set {A} (xs : list A) n m a d :
  n < List.length xs -> nth m (list_set xs n a) d = if (n =? m)%nat then a else nth m xs d.
Proof.
  intros Hn. destruct (n =? m)%nat eqn:E.
  - apply Nat.eqb_eq in E; subst. now apply nth_list_set_eq.
  - apply nth_list_set_neq. apply Nat.eqb_neq in E. auto.
Qed.

Lemma dict_del_absent d k : dict_has d k = false -> dict_del d k = d.
Proof.
  unfold dict_has, dict_del. induction d as [|[k' v] d IH]; simpl; auto.
  destruct (String.eqb k k') eqn:E; [discriminate|]. intros H.
  rewrite String.eqb_sym in E. rewrite E. simpl. f_equal. apply IH. exact H.
Qed.

Lemma filter_filter_and {A} (f g : A -> bool) xs :
  filter f (filter g xs) = filter (fun x => g x && f x) xs.
Proof.
  induction xs as [|x xs IH]; simpl; auto.
  destruct (g x); simpl; [destruct (f x); simpl; rewrite IH; auto | exact IH].
Qed.

Lemma filter_all_true {A} (xs : list A) : filter (fun _ => true) xs = xs.
Proof. induction xs; simpl; f_equal; auto. Qed.

Lemma remove_name_step kf i l name h :
  py_index kf i = Some l -> l < List.length h ->
  (df <-- getidx kf i ;;
   b <-- contains df name ;;
   if b then (df' <-- getidx kf i ;; delitem df' name) else ret tt) h
  = (PyOk tt, list_set h l (dict_del (nth l h []) name)).
Proof.
  intros Hi Hl. rewrite (bind_getidx_ok _ _ l) by exact Hi. cbv beta.
  unfold contains. rewrite bind_assoc, (bind_load_ok _ _ _ (nth l h [])) by (apply nth_error_nth'; exact Hl).
  cbv beta. rewrite bind_ret. destruct (dict_has (nth l h []) name) eqn:Eh.
  - rewrite (bind_getidx_ok _ _ l) by exact Hi. unfold delitem.
    rewrite (bind_load_ok _ _ _ (nth l h [])) by (apply nth_error_nth'; exact Hl).
    rewrite Eh. reflexivity.
  - rewrite dict_del_absent by exact Eh. rewrite list_set_nth_id by exact Hl. reflexivity.
Qed.

Lemma remove_names_outcome kf i names h :
  Forall (fun l => l < List.length h) kf ->
  let res := for_each names (fun param_name =>
      df <-- getidx kf i ;;
      b <-- contains df param_name ;;
      if b then (df' <-- getidx kf i ;; delitem df' param_name) else ret tt) h in
  List.length (snd res) = List.length h /\
  match py_index kf i with
  | Some l => fst res = PyOk tt /\
      forall l', nth l' (snd res) [] =
        if (l =? l')%nat
        then filter (fun kv => negb (existsb (String.eqb (fst kv)) names)) (nth l' h [])
        else nth l' h []
  | None => res = (match names with [] => PyOk tt | _ => PyRaise IndexError end, h)
  end.
Proof.
  intros Hv; cbv zeta. destruct (py_index kf i) as [l|] eqn:Ei.
  2: { destruct names as [|name names]; [simpl; auto|].
       rewrite for_each_cons, bind_assoc, bind_getidx_err by exact Ei. simpl. auto. }
  assert (Hl : l < List.length h).
  { rewrite Forall_forall in Hv. apply Hv. eapply py_index_In; eauto. }
  revert h Hv Hl; induction names as [|name names IH]; intros h Hv Hl.
  - simpl. repeat split; auto. intros l'. destruct (l =? l')%nat; auto.
    symmetry; apply filter_all_true.
  - rewrite for_each_cons. rewrite (bind_ok _ _ _ _ _ (remove_name_step kf i l name h Ei Hl)).
    cbv beta. set (h1 := list_set h l (dict_del (nth l h []) name)).
    assert (Hlen1 : List.length h1 = List.length h) by apply list_set_length.
    destruct (IH h1) as [Hlen [Hok Hn]]; [rewrite Hlen1; exact Hv | lia |].
    split; [congruence|]. split; auto. intros l'. rewrite Hn.
    unfold h1. rewrite nth_list_set by exact Hl.
    destruct (l =? l')%nat eqn:E; auto. apply Nat.eqb_eq in E; subst l'.
    unfold dict_del. rewrite filter_filter_and. apply filter_ext. intros [k v]. simpl.
    destruct (String.eqb k name); reflexivity.
Qed.

Lemma remove_fixed_loop kf rf h :
  Forall (fun l => l < List.length h) kf ->
  let res := for_each rf (fun e =>
    let '(i_model, fix_names) := e in
    for_each fix_names (fun param_name =>
      df <-- getidx kf i_model ;;
      b <-- contains df param_name ;;
      if b then (df' <-- getidx kf i_model ;; delitem df' param_name) else ret tt)) h in
  List.length (snd res) = List.length h /\
  ((fst res = PyOk tt /\
    Forall (fun '(i_model, names) => names = [] \/ py_index kf i_model <> None) rf /\
    forall l', nth l' (snd res) [] =
      filter (fun kv => negb (existsb (fun '(i_model, names) =>
                  match py_index kf i_model with
                  | Some l => (l =? l')%nat && existsb (String.eqb (fst kv)) names
                  | None => false
                  end) rf)) (nth l' h [])) \/
   (fst res = PyRaise IndexError /\
    ~ Forall (fun '(i_model, names) => names = [] \/ py_index kf i_model <> None) rf)).
Proof.
  revert h; induction rf as [|[i names] rf IH]; intros h Hv; cbv zeta.
  - simpl. split; auto. left. repeat split; auto. intros l'. symmetry; apply filter_all_true.
  - rewrite for_each_cons.
    destruct (remove_names_outcome kf i names h Hv) as [Hlen He]; cbv zeta in *.
    destruct (py_index kf i) as [l|] eqn:Ei.
    + destruct He as [Hok Hn].
      match type of Hok with fst ?X = _ => destruct X as [res h1] eqn:E end.
      simpl in Hok, Hlen, Hn; subst res.
      rewrite (bind_ok _ _ _ _ _ E). cbv beta.
      destruct (IH h1 ltac:(rewrite Hlen; exact Hv)) as [Hlen' [[Hok' [Hc' Hn']] | [Herr' Hc']]].
      * split; [congruence|]. left. split; auto. split.
        { constructor; auto. right; congruence. }
        intros l'. rewrite Hn', Hn. simpl. rewrite Ei.
        destruct (l =? l')%nat eqn:El; simpl.
        -- rewrite filter_filter_and. apply filter_ext. intros kv.
           destruct (existsb (String.eqb (fst kv)) names); reflexivity.
        -- reflexivity.
      * split; [congruence|]. right; split; auto. intros H; inversion H; subst; contradiction.
    + destruct names as [|name names].
      * rewrite (bind_ok _ _ _ _ _ He). cbv beta.
        destruct (IH h Hv) as [Hlen' [[Hok' [Hc' Hn']] | [Herr' Hc']]].
        -- split; auto. left. split; auto. split; [constructor; auto|].
           intros l'. rewrite Hn'. simpl. rewrite Ei. reflexivity.
        -- split; auto. right; split; auto. intros H; inversion H; subst; contradiction.
      * rewrite (bind_err _ _ _ _ _ He). simpl. split; auto. right; split; auto.
        intros H; inversion H as [|? ? Hx]; subst. destruct Hx as [Hx|Hx]; [discriminate|contradiction].
Qed.

(** [_remove_fixed] works in place: it allocates nothing, returns the
    list it was given when every entry with names has a valid model index, and
    raises IndexError otherwise. *)
Theorem _remove_fixed_in_place kf rf h :
  Forall (fun l => l < List.length h) kf ->
  List.length (snd (_remove_fixed kf rf h)) = List.length h /\
  (fst (_remove_fixed kf rf h) = PyOk kf <->
     Forall (fun '(i_model, names) => names = [] \/ py_index kf i_model <> None) rf) /\
  (fst (_remove_fixed kf rf h) = PyRaise IndexError <->
     ~ Forall (fun '(i_model, names) => names = [] \/ py_index kf i_model <> None) rf).
Proof.
  intros Hv. unfold _remove_fixed.
  destruct (remove_fixed_loop kf rf h Hv) as [Hlen [[Hok [Hc _]] | [Herr Hc]]]; cbv zeta in *.
  - match type of Hok with fst ?X = _ => destruct X as [res h1] eqn:E end.
    simpl in Hok, Hlen; subst res. rewrite (bind_ok _ _ _ _ _ E). simpl.
    repeat split; auto; [discriminate | intros H; contradiction].
  - match type of Herr with fst ?X = _ => destruct X as [res h1] eqn:E end.
    simpl in Herr, Hlen; subst res. rewrite (bind_err _ _ _ _ _ E). simpl.
    repeat split; auto; [discriminate | intros H; contradiction].
Qed.

(** When every entry is valid, [_remove_fixed] leaves at each location
    the old dict without the keys that some entry names for the model at that
    location; every other key keeps its place and value. *)
Theorem _remove_fixed_unfixes_names kf rf h :
  Forall (fun l => l < List.length h) kf ->
  Forall (fun '(i_model, names) => names = [] \/ py_index kf i_model <> None) rf ->
  forall l', nth l' (snd (_remove_fixed kf rf h)) [] =
    filter (fun kv => negb (existsb (fun '(i_model, names) =>
                match py_index kf i_model with
                | Some l => (l =? l')%nat && existsb (String.eqb (fst kv)) names
                | None => false
                end) rf)) (nth l' h []).
Proof.
  intros Hv Hc0. unfold _remove_fixed.
  destruct (remove_fixed_loop kf rf h Hv) as [Hlen [[Hok [Hc Hn]] | [Herr Hc]]]; cbv zeta in *.
  - match type of Hok with fst ?X = _ => destruct X as [res h1] eqn:E end.
    simpl in Hok, Hn; subst res. rewrite (bind_ok _ _ _ _ _ E). exact Hn.
  - contradiction.
Qed.

Lemma dict_get_set_eq d k v : dict_get (dict_set d k v) k = Some v.
Proof.
  induction d as [|[k' v'] d IH]; simpl; [now rewrite String.eqb_refl|].
  destruct (String.eqb k k') eqn:E; simpl; [now rewrite String.eqb_refl | now rewrite E].
Qed.

Lemma dict_get_set_neq d k k' v : k' <> k -> dict_get (dict_set d k v) k' = dict_get d k'.
Proof.
  intros Hne. induction d as [|[a b] d IH]; simpl.
  - apply String.eqb_neq in Hne. now rewrite Hne.
  - destruct (String.eqb k a) eqn:E; simpl.
    + apply String.eqb_eq in E; subst a. apply String.eqb_neq in Hne. now rewrite Hne.
    + destruct (String.eqb k' a); auto.
Qed.

Lemma dict_has_get d k : dict_has d k = true <-> dict_get d k <> None.
Proof. unfold dict_has. destruct (dict_get d k); split; congruence. Qed.

Lemma bind_getitem_ok {B} l k v (g : pval -> ST B) h :
  l < List.length h -> dict_get (nth l h []) k = Some v -> bindST (getitem l k) g h = g v h.
Proof.
  intros Hl Hk. unfold getitem. rewrite bind_assoc.
  rewrite (bind_load_ok _ _ _ (nth l h [])) by (apply nth_error_nth'; exact Hl).
  cbv beta. rewrite Hk. reflexivity.
Qed.

Lemma bind_getitem_err {B} l k (g : pval -> ST B) h :
  l < List.length h -> dict_get (nth l h []) k = None -> bindST (getitem l k) g h = (PyRaise KeyError, h).
Proof.
  intros Hl Hk. unfold getitem. rewrite bind_assoc.
  rewrite (bind_load_ok _ _ _ (nth l h [])) by (apply nth_error_nth'; exact Hl).
  cbv beta. rewrite Hk. reflexivity.
Qed.

Lemma bind_getidx_opt_some {A B} (xs : list A) i (k : A -> ST B) h :
  bindST (getidx_opt (Some xs) i) k h = bindST (getidx xs i) k h.
Proof. reflexivity. Qed.

Lemma add_names_from_model kml kf i lf lm d0 N names j h :
  py_index kf i = Some lf -> py_index kml i = Some lm ->
  lf < List.length h -> lm < List.length h -> j + List.length names <= N ->
  (forall k, dict_get (nth lm h []) k = dict_get d0 k) ->
  let res := for_enum j names (fun j param_name =>
      vj <-- getidx (repeat VNone N) (Z.of_nat j) ;;
      match vj with
      | VNone =>
          dm <-- getidx_opt (Some kml) i ;;
          v <-- getitem dm param_name ;;
          df <-- getidx kf i ;;
          setitem df param_name v
      | _ =>
          df <-- getidx kf i ;;
          setitem df param_name vj
      end) h in
  (exists h', res = (PyOk tt, h') /\
    Forall (fun name => dict_has d0 name = true) names /\
    List.length h' = List.length h /\
    (forall k, dict_get (nth lm h' []) k = dict_get d0 k) /\
    (forall k, In k names -> dict_get (nth lf h' []) k = dict_get d0 k) /\
    (forall k, ~ In k names -> dict_get (nth lf h' []) k = dict_get (nth lf h []) k) /\
    (forall l, l <> lf -> nth l h' [] = nth l h [])) \/
  (fst res = PyRaise KeyError /\ Exists (fun name => dict_has d0 name = false) names).
Proof.
  intros Hf Hm. revert j h; induction names as [|name names IH]; intros j h Hlf Hlm Hj Hd0; cbv zeta.
  - left. exists h. simpl. repeat split; auto. intros k [].
  - rewrite for_enum_cons, bind_assoc, (bind_getidx_ok _ _ VNone).
    2: { rewrite py_index_nat. apply nth_error_repeat. simpl in Hj; lia. }
    cbv beta iota. rewrite bind_assoc, bind_getidx_opt_some, (bind_getidx_ok _ _ lm) by exact Hm.
    cbv beta. rewrite bind_assoc. destruct (dict_get d0 name) as [v|] eqn:Ev.
    2: { rewrite bind_getitem_err by (try rewrite Hd0; auto). right. split; [reflexivity|].
         apply Exists_cons_hd. unfold dict_has. now rewrite Ev. }
    rewrite (bind_getitem_ok _ _ v) by (try rewrite Hd0; auto). cbv beta.
    rewrite bind_assoc, (bind_getidx_ok _ _ lf) by exact Hf. cbv beta.
    rewrite (bind_setitem_ok _ _ _ _ (nth lf h [])) by (apply nth_error_nth'; exact Hlf).
    set (h1 := list_set h lf (dict_set (nth lf h []) name v)).
    assert (Hlen1 : List.length h1 = List.length h) by apply list_set_length.
    assert (Hd1 : forall k, dict_get (nth lm h1 []) k = dict_get d0 k).
    { intros k. unfold h1. rewrite nth_list_set by exact Hlf.
      destruct (lf =? lm)%nat eqn:E; [|apply Hd0].
      apply Nat.eqb_eq in E; subst lm.
      destruct (String.eqb k name) eqn:Ek.
      - apply String.eqb_eq in Ek; subst k. rewrite dict_get_set_eq. congruence.
      - apply String.eqb_neq in Ek. rewrite dict_get_set_neq by exact Ek. apply Hd0. }
    destruct (IH (S j) h1 ltac:(lia) ltac:(lia) ltac:(simpl in Hj; lia) Hd1)
      as [(h' & E' & Hall & Hlen' & Hm' & Hin' & Hout' & Hoth') | [Herr Hex]];
      cbv zeta in *.
    + left. exists h'. split; [exact E'|]. split.
      { constructor; auto. unfold dict_has. now rewrite Ev. }
      split; [congruence|]. split; auto. split; [|split].
      * intros k [Hk|Hk]; [subst k | apply Hin'; exact Hk].
        destruct (in_dec String.string_dec name names) as [Hn|Hn]; [apply Hin'; exact Hn|].
        rewrite Hout' by exact Hn. unfold h1. rewrite nth_list_set_eq by exact Hlf.
        rewrite dict_get_set_eq. congruence.
      * intros k Hk. rewrite Hout' by (intros H; apply Hk; right; exact H).
        unfold h1. rewrite nth_list_set_eq by exact Hlf.
        apply dict_get_set_neq. intros ->. apply Hk. left; auto.
      * intros l Hl. rewrite Hoth' by exact Hl. unfold h1. apply nth_list_set_neq. exact Hl.
    + right. split; [exact Herr|]. apply Exists_cons_tl. exact Hex.
Qed.

Lemma bind_for_each_one {A B} (x : A) body (k : unit -> ST B) h :
  bindST (for_each [x] body) k h = bindST (body x) k h.
Proof. cbn [for_each]. unfold bindST, ret. destruct (body x h) as [[[]|e] h']; reflexivity. Qed.

(** Fixing names without values copies, for each name, its value in the
    model's current keyword dict into that model's fixed dict, in place; the
    other keys and all other dicts are left alone, and the fixed list is
    returned. *)
Theorem _add_fixed_copies_from_model kml kf i names lf lm h :
  py_index kf i = Some lf -> py_index kml i = Some lm ->
  lf < List.length h -> lm < List.length h ->
  Forall (fun name => dict_has (nth lm h []) name = true) names ->
  exists h', _add_fixed (Some kml) kf [(i, names, None)] h = (PyOk kf, h') /\
    List.length h' = List.length h /\
    (forall k, In k names -> dict_get (nth lf h' []) k = dict_get (nth lm h []) k) /\
    (forall k, ~ In k names -> dict_get (nth lf h' []) k = dict_get (nth lf h []) k) /\
    (forall l, l <> lf -> nth l h' [] = nth l h []).
Proof.
  intros Hf Hm Hlf Hlm Hall. unfold _add_fixed. rewrite bind_for_each_one. cbv beta iota zeta.
  destruct (add_names_from_model kml kf i lf lm (nth lm h []) (List.length names) names 0 h
              Hf Hm Hlf Hlm ltac:(lia) (fun _ => eq_refl))
    as [(h' & E' & _ & Hlen' & _ & Hin' & Hout' & Hoth') | [Herr Hex]]; cbv zeta in *.
  - exists h'. rewrite (bind_ok _ _ _ _ _ E'). repeat split; auto.
  - exfalso. rewrite Forall_forall in Hall. rewrite Exists_exists in Hex.
    destruct Hex as (x & Hx & Hn). rewrite Hall in Hn by exact Hx. discriminate.
Qed.

(** Fixing names without values raises KeyError exactly when one of the
    names is missing from the model's current keyword dict. *)
Theorem _add_fixed_missing_model_key kml kf i names lf lm h :
  py_index kf i = Some lf -> py_index kml i = Some lm ->
  lf < List.length h -> lm < List.length h ->
  (fst (_add_fixed (Some kml) kf [(i, names, None)] h) = PyRaise KeyError <->
   Exists (fun name => dict_has (nth lm h []) name = false) names).
Proof.
  intros Hf Hm Hlf Hlm. unfold _add_fixed. rewrite bind_for_each_one. cbv beta iota zeta.
  destruct (add_names_from_model kml kf i lf lm (nth lm h []) (List.length names) names 0 h
              Hf Hm Hlf Hlm ltac:(lia) (fun _ => eq_refl))
    as [(h' & E' & Hall & _) | [Herr Hex]]; cbv zeta in *.
  - rewrite (bind_ok _ _ _ _ _ E'). simpl. split; [discriminate|].
    intros Hex. rewrite Forall_forall in Hall. rewrite Exists_exists in Hex.
    destruct Hex as (x & Hx & Hn). rewrite Hall in Hn by exact Hx. discriminate.
  - match type of Herr with fst ?X = _ => destruct X as [res h1] eqn:E end.
    simpl in Herr; subst res. rewrite (bind_err _ _ _ _ _ E). simpl. tauto.
Qed.

Lemma for_each_noop {A} (xs : list A) body h :
  (forall x h, In x xs -> body x h = (PyOk tt, h)) -> for_each xs body h = (PyOk tt, h).
Proof.
  revert h; induction xs as [|x xs IH]; intros h Hb; [reflexivity|].
  rewrite for_each_cons, (bind_ok _ _ _ _ _ (Hb x h (or_introl eq_refl))).
  apply IH. intros; apply Hb; right; auto.
Qed.

Lemma combine_nil_iff {A B} (xs : list A) (ys : list B) :
  xs = [] \/ ys = [] -> combine xs ys = [].
Proof. intros [->| ->]; [reflexivity | destruct xs; reflexivity]. Qed.

(** [update_param_value] does nothing when every entry has no keys or
    no values: [zip] then yields no pairs. *)
Theorem update_param_value_without_values_is_noop um lens source lens_light ps h :
  Forall (fun '(_, keys, values) => keys = [] \/ values = []) lens ->
  Forall (fun '(_, keys, values) => keys = [] \/ values = []) source ->
  Forall (fun '(_, keys, values) => keys = [] \/ values = []) lens_light ->
  Forall (fun '(_, keys, values) => keys = [] \/ values = []) ps ->
  update_param_value um lens source lens_light ps h = (PyOk tt, h).
Proof.
  intros H1 H2 H3 H4. unfold update_param_value. apply for_each_noop.
  intros [items lst] h' Hin. simpl in Hin.
  assert (Hi : Forall (fun '(_, keys, values) => keys = [] \/ values = []) items).
  { destruct Hin as [E|[E|[E|[E|[]]]]]; inversion E; subst; assumption. }
  apply for_each_noop. intros [[index keys] values] h'' Hx.
  rewrite Forall_forall in Hi. specialize (Hi _ Hx). cbv beta iota.
  rewrite (combine_nil_iff keys values Hi). reflexivity.
Qed.

Lemma list_set_list_set {A} (xs : list A) n a b : list_set (list_set xs n a) n b = list_set xs n b.
Proof. revert n; induction xs as [|x xs IH]; intros [|n]; simpl; f_equal; auto. Qed.

Lemma param_pairs_write lst i l (pairs : list (string * pval)) h :
  py_index lst i = Some l -> l < List.length h ->
  for_each pairs (fun '(key, value) => d <-- getidx_opt (Some lst) i ;; setitem d key value) h =
  (PyOk tt, list_set h l (fold_left (fun d '(key, value) => dict_set d key value) pairs (nth l h []))).
Proof.
  intros Hi. revert h; induction pairs as [|[k v] pairs IH]; intros h Hl.
  - simpl. now rewrite list_set_nth_id.
  - rewrite for_each_cons. cbv beta iota. rewrite bind_assoc, bind_getidx_opt_some.
    rewrite (bind_getidx_ok _ _ l) by exact Hi. cbv beta.
    rewrite (bind_setitem_ok _ _ _ _ (nth l h [])) by (apply nth_error_nth'; exact Hl).
    rewrite IH by (rewrite list_set_length; exact Hl).
    rewrite list_set_list_set, nth_list_set_eq by exact Hl. reflexivity.
Qed.

(** In the init state the current lens list is the lens init list
    itself, so [update_param_value] writes through to the init dicts: the
    zipped key/value pairs are set in the dict at the given index. *)
Theorem update_param_value_writes_through_init um i keys values l h :
  _kwargs_temp um = init_kwargs um ->
  py_index (g_init (lens um)) i = Some l -> l < List.length h ->
  update_param_value um [(i, keys, values)] [] [] [] h =
    (PyOk tt, list_set h l (fold_left (fun d '(key, value) => dict_set d key value)
                                      (combine keys values) (nth l h []))) /\
  kwargs_lens (parameter_state (set_init_state um)) = Some (g_init (lens um)).
Proof.
  intros Ht Hi Hl. split; [|reflexivity].
  unfold update_param_value. rewrite Ht. cbn [combine]. rewrite for_each_cons. cbv beta iota.
  rewrite bind_for_each_one. cbv beta iota. cbn [kwargs_lens init_kwargs].
  rewrite (bind_ok _ _ _ _ _ (param_pairs_write (g_init (lens um)) i l (combine keys values) h Hi Hl)).
  reflexivity.
Qed.





Lemma group_for_absent km key o h :
  km < List.length h ->
  dict_get (nth km h []) key = None \/ dict_get (nth km h []) key = Some VNone ->
  group_for km key o h = (PyOk empty_group, h).
Proof.
  intros Hk Habs. unfold group_for, get_default. rewrite bind_assoc.
  rewrite (bind_load_ok _ _ _ (nth km h [])) by (apply nth_error_nth'; exact Hk).
  cbv beta. rewrite bind_ret. destruct Habs as [-> | ->]; reflexivity.
Qed.

(** Without model lists in [kwargs_model] and without [special] in
    [kwargs_params], [__init__] gives five empty groups, allocates five fresh
    empty special dicts and starts in the init state. *)
Theorem init_without_model_lists km kc kl kwargs_params h :
  km < List.length h ->
  (forall key, In key ["lens_model_list"; "source_light_model_list"; "lens_light_model_list";
                       "point_source_model_list"; "optical_depth_model_list"] ->
     dict_get (nth km h []) key = None \/ dict_get (nth km h []) key = Some VNone) ->
  special_params kwargs_params = None ->
  exists um, UpdateManager_init km kc kl kwargs_params h = (PyOk um, app h [[]; []; []; []; []]) /\
    lens um = empty_group /\ source um = empty_group /\ lens_light um = empty_group /\
    ps um = empty_group /\ extinction um = empty_group /\
    special um = {| s_init := List.length h; s_sigma := List.length h + 1;
                    s_fixed := List.length h + 2; s_lower := List.length h + 3;
                    s_upper := List.length h + 4 |} /\
    parameter_state um = init_kwargs um.
Proof.
  intros Hk Habs Hsp. unfold UpdateManager_init.
  rewrite (bind_ok _ _ _ _ _ (group_for_absent km "lens_model_list" _ h Hk
             (Habs "lens_model_list" ltac:(simpl; tauto)))). cbv beta.
  rewrite (bind_ok _ _ _ _ _ (group_for_absent km "source_light_model_list" _ h Hk
             (Habs "source_light_model_list" ltac:(simpl; tauto)))). cbv beta.
  rewrite (bind_ok _ _ _ _ _ (group_for_absent km "lens_light_model_list" _ h Hk
             (Habs "lens_light_model_list" ltac:(simpl; tauto)))). cbv beta.
  rewrite (bind_ok _ _ _ _ _ (group_for_absent km "point_source_model_list" _ h Hk
             (Habs "point_source_model_list" ltac:(simpl; tauto)))). cbv beta.
  rewrite (bind_ok _ _ _ _ _ (group_for_absent km "optical_depth_model_list" _ h Hk
             (Habs "optical_depth_model_list" ltac:(simpl; tauto)))). cbv beta.
  rewrite Hsp. unfold bindST, alloc, ret. rewrite <- !app_assoc. simpl. rewrite !length_app. simpl.
  eexists; split; [reflexivity|]. repeat split; simpl; f_equal; lia.
Qed.

(** When [kwargs_model] has a lens model list, [__init__] raises
    KeyError if [kwargs_params] has no lens entry, and ValueError if that entry
    is not five lists; nothing is allocated. *)
Theorem init_lens_list_needs_params km kc kl kwargs_params h v :
  km < List.length h -> dict_get (nth km h []) "lens_model_list" = Some v -> v <> VNone ->
  (lens_model kwargs_params = None ->
     UpdateManager_init km kc kl kwargs_params h = (PyRaise KeyError, h)) /\
  (forall xs, lens_model kwargs_params = Some xs -> List.length xs <> 5 ->
     UpdateManager_init km kc kl kwargs_params h = (PyRaise ValueError, h)).
Proof.
  intros Hk Hv Hnn. unfold UpdateManager_init, group_for, get_default.
  rewrite !bind_assoc. rewrite (bind_load_ok _ _ _ (nth km h [])) by (apply nth_error_nth'; exact Hk).
  cbv beta. rewrite bind_ret. rewrite Hv.
  destruct v as [|f|s0|b0|vs]; [congruence|..]. all: split.
  all: try (intros Hn; unfold unpack_group; rewrite Hn; reflexivity).
  all: intros ys Hy Hlen; unfold unpack_group; rewrite Hy;
    destruct ys as [|x1 [|x2 [|x3 [|x4 [|x5 [|x6 ys6]]]]]]; simpl in Hlen; try lia; reflexivity.
Qed.


Lemma keeps_readonly {A} I (m : ST A) : readonly m -> keeps I m.
Proof. intros Hr h H. now rewrite Hr. Qed.

Lemma readonly_ret {A} (a : A) : readonly (ret a).
Proof. intros h; reflexivity. Qed.

Lemma readonly_raise {A} e : readonly (@raise A e).
Proof. intros h; reflexivity. Qed.

Lemma readonly_bind {A B} (m : ST A) (k : A -> ST B) :
  readonly m -> (forall a, readonly (k a)) -> readonly (bindST m k).
Proof.
  intros Hm Hk h. unfold bindST. specialize (Hm h).
  destruct (m h) as [[a|e] h']; simpl in *; subst; [apply Hk | reflexivity].
Qed.

Lemma readonly_load l : readonly (load l).
Proof. intros h; unfold load; destruct (nth_error h l); reflexivity. Qed.

Lemma readonly_getidx {A} (xs : list A) i : readonly (getidx xs i).
Proof. unfold getidx; destruct (py_index xs i); [apply readonly_ret | apply readonly_raise]. Qed.

Lemma readonly_getidx_opt {A} (xs : option (list A)) i : readonly (getidx_opt xs i).
Proof. destruct xs; [apply readonly_getidx | apply readonly_raise]. Qed.

Lemma readonly_getitem l k : readonly (getitem l k).
Proof.
  apply readonly_bind; [apply readonly_load|]. intros d.
  destruct (dict_get d k); [apply readonly_ret | apply readonly_raise].
Qed.

Lemma readonly_getitem_opt o k : readonly (getitem_opt o k).
Proof. destruct o; [apply readonly_getitem | apply readonly_raise]. Qed.

Lemma readonly_contains l k : readonly (contains l k).
Proof. apply readonly_bind; [apply readonly_load | intros; apply readonly_ret]. Qed.

Lemma keeps_at_setitem l d n a k v : a <> l -> keeps (keeps_at l d n) (setitem a k v).
Proof.
  intros Ha h [H1 H2]. unfold setitem, bindST, load.
  destruct (nth_error h a); simpl; [|split; auto].
  unfold store; simpl. split; [rewrite nth_list_set_neq; auto | rewrite list_set_length; auto].
Qed.

Lemma keeps_at_delitem l d n a k : a <> l -> keeps (keeps_at l d n) (delitem a k).
Proof.
  intros Ha h [H1 H2]. unfold delitem, bindST, load.
  destruct (nth_error h a); simpl; [|split; auto].
  destruct (dict_has p k); simpl; [|split; auto].
  unfold store; simpl. split; [rewrite nth_list_set_neq; auto | rewrite list_set_length; auto].
Qed.

Lemma add_fixed_frame km kf af l (h : heap) :
  ~ In l kf ->
  keeps_at l (nth l h []) (List.length h) (snd (_add_fixed km kf af h)) /\
  match fst (_add_fixed km kf af h) with PyOk r => r = kf | PyRaise _ => True end.
Proof.
  intros Hl. split.
  - apply (keeps_bind _ _ _ (fun _ => True)); [| apply ensures_any | intros; apply keeps_ret | split; auto].
    apply keeps_for_each. intros [[i names] ov] _. apply keeps_for_enum. intros j x.
    apply (keeps_bind _ _ _ (fun _ => True));
      [apply keeps_readonly, readonly_getidx | apply ensures_any |]. intros vj _.
    assert (Hset : forall v, keeps (keeps_at l (nth l h []) (List.length h))
                     (df <-- getidx kf i ;; setitem df x v)).
    { intros v. apply (keeps_bind _ _ _ (fun a => In a kf));
        [apply keeps_readonly, readonly_getidx | apply ensures_getidx |].
      intros a Ha. apply keeps_at_setitem. intros ->; contradiction. }
    destruct vj; try apply Hset.
    apply (keeps_bind _ _ _ (fun _ => True));
      [apply keeps_readonly, readonly_getidx_opt | apply ensures_any |]. intros dm _.
    apply (keeps_bind _ _ _ (fun _ => True));
      [apply keeps_readonly, readonly_getitem | apply ensures_any |]. intros v _. apply Hset.
  - unfold _add_fixed, bindST. destruct (for_each af _ h) as [[[]|e] h1]; simpl; auto.
Qed.

Lemma remove_fixed_frame kf rf l (h : heap) :
  ~ In l kf ->
  keeps_at l (nth l h []) (List.length h) (snd (_remove_fixed kf rf h)) /\
  match fst (_remove_fixed kf rf h) with PyOk r => r = kf | PyRaise _ => True end.
Proof.
  intros Hl. split.
  - apply (keeps_bind _ _ _ (fun _ => True)); [| apply ensures_any | intros; apply keeps_ret | split; auto].
    apply keeps_for_each. intros [i names] _. apply keeps_for_each. intros x _.
    apply (keeps_bind _ _ _ (fun _ => True));
      [apply keeps_readonly, readonly_getidx | apply ensures_any |]. intros df _.
    apply (keeps_bind _ _ _ (fun _ => True));
      [apply keeps_readonly, readonly_contains | apply ensures_any |]. intros b _.
    destruct b; [|apply keeps_ret].
    apply (keeps_bind _ _ _ (fun a => In a kf));
      [apply keeps_readonly, readonly_getidx | apply ensures_getidx |].
    intros a Ha. apply keeps_at_delitem. intros ->; contradiction.
  - unfold _remove_fixed, bindST. destruct (for_each rf _ h) as [[[]|e] h1]; simpl; auto.
Qed.

Lemma add_fixed_returns km kf af h r h1 : _add_fixed km kf af h = (PyOk r, h1) -> r = kf.
Proof.
  unfold _add_fixed, bindST. destruct (for_each af _ h) as [[[]|e] h2]; intros E; inversion E; auto.
Qed.

Lemma remove_fixed_returns kf rf h r h1 : _remove_fixed kf rf h = (PyOk r, h1) -> r = kf.
Proof.
  unfold _remove_fixed, bindST. destruct (for_each rf _ h) as [[[]|e] h2]; intros E; inversion E; auto.
Qed.

Lemma not_in_above_max (xs : list nat) : ~ In (S (list_max xs)) xs.
Proof.
  intros Hin. assert (Hle : Forall (fun k => k <= list_max xs) xs) by (apply list_max_le; lia).
  rewrite Forall_forall in Hle. specialize (Hle _ Hin). lia.
Qed.

Lemma add_fixed_length km kf af h :
  List.length (snd (_add_fixed km kf af h)) = List.length h.
Proof. apply (add_fixed_frame km kf af _ h (not_in_above_max kf)). Qed.

Lemma remove_fixed_length kf rf h :
  List.length (snd (_remove_fixed kf rf h)) = List.length h.
Proof. apply (remove_fixed_frame kf rf _ h (not_in_above_max kf)). Qed.

Lemma dict_get_del_eq d k : dict_get (dict_del d k) k = None.
Proof.
  induction d as [|[k' v] d IH]; simpl; auto.
  destruct (String.eqb k' k) eqn:E; simpl; auto.
  rewrite String.eqb_sym, E. auto.
Qed.

Lemma dict_get_del_neq d k k' : k' <> k -> dict_get (dict_del d k) k' = dict_get d k'.
Proof.
  intros Hne. induction d as [|[a v] d IH]; simpl; auto.
  destruct (String.eqb a k) eqn:E; simpl.
  - apply String.eqb_eq in E; subst a. apply String.eqb_neq in Hne. now rewrite Hne.
  - now rewrite IH.
Qed.

Lemma dict_has_of_get d d' k : dict_get d k = dict_get d' k -> dict_has d k = dict_has d' k.
Proof. unfold dict_has. now intros ->. Qed.

Lemma readonly_state {A} (m : ST A) h r h1 : readonly m -> m h = (r, h1) -> h1 = h.
Proof. intros Hr E. specialize (Hr h). now rewrite E in Hr. Qed.

Lemma bind_contains_ok {B} c k (g : bool -> ST B) h :
  c < List.length h -> bindST (contains c k) g h = g (dict_has (nth c h []) k) h.
Proof.
  intros Hc. unfold contains. rewrite bind_assoc.
  rewrite (bind_load_ok _ _ _ (nth c h []) (nth_error_nth' h [] Hc)). reflexivity.
Qed.

(** The loop adding the special parameters to the copied dict at [c]. *)
Lemma special_add_loop c st names h h1 :
  c < List.length h ->
  for_each names (fun param_name =>
    b <-- contains c param_name ;;
    if b then ret tt
    else v <-- getitem_opt st param_name ;; setitem c param_name v) h = (PyOk tt, h1) ->
  only_at c h h1 /\
  (forall n, In n names -> dict_has (nth c h1 []) n = true) /\
  (forall n, (dict_has (nth c h []) n = true \/ ~ In n names) ->
             dict_get (nth c h1 []) n = dict_get (nth c h []) n).
Proof.
  revert h. induction names as [|x names IH]; intros h Hc E.
  - simpl in E. injection E as <-. split; [split; auto|]. split; [intros n []|auto].
  - rewrite for_each_cons, bind_assoc, (bind_contains_ok _ _ _ _ Hc) in E.
    cbv beta iota in E.
    destruct (dict_has (nth c h []) x) eqn:Hx.
    + rewrite bind_ret in E. destruct (IH h Hc E) as [Ho [Hin Hget]].
      split; [exact Ho|]. split.
      * intros n [<-|Hn]; [|now apply Hin].
        rewrite <- Hx. apply dict_has_of_get, Hget. now left.
      * intros n Hn. apply Hget. destruct Hn as [Hn|Hn]; [now left | right; intros Hn'; apply Hn; now right].
    + rewrite bind_assoc in E.
      destruct (getitem_opt st x h) as [[v|e] h2] eqn:G;
        pose proof (readonly_state _ _ _ _ (readonly_getitem_opt st x) G) as ->.
      2: { rewrite (bind_err _ _ _ _ _ G) in E. discriminate E. }
      rewrite (bind_ok _ _ _ _ _ G) in E. cbv beta in E.
      rewrite (bind_setitem_ok c x v h (nth c h []) _ (nth_error_nth' h [] Hc)) in E.
      set (h' := list_set h c (dict_set (nth c h []) x v)) in E.
      assert (Hc' : c < List.length h') by (unfold h'; now rewrite list_set_length).
      assert (Hnth : nth c h' [] = dict_set (nth c h []) x v) by (apply nth_list_set_eq; lia).
      destruct (IH h' Hc' E) as [[Hl Ho] [Hin Hget]].
      split; [split|split].
      * rewrite Hl. unfold h'. apply list_set_length.
      * intros l' Hl'. rewrite Ho by exact Hl'. unfold h'. now apply nth_list_set_neq.
      * intros n [<-|Hn]; [|now apply Hin].
        rewrite (dict_has_of_get _ (nth c h' []) x).
        -- rewrite Hnth. unfold dict_has. now rewrite dict_get_set_eq.
        -- apply Hget. left. rewrite Hnth. unfold dict_has. now rewrite dict_get_set_eq.
      * intros n Hn.
        assert (Hnx : n <> x).
        { destruct Hn as [Hn|Hn]; intros ->; [congruence | apply Hn; now left]. }
        rewrite Hget.
        -- rewrite Hnth. now apply dict_get_set_neq.
        -- destruct Hn as [Hn|Hn]; [left | right].
           ++ rewrite Hnth. unfold dict_has. rewrite dict_get_set_neq by exact Hnx. exact Hn.
           ++ intros Hn'. apply Hn. now right.
Qed.

(** The loop removing the special parameters from the copied dict at [c]. *)
Lemma special_remove_loop c names h h1 :
  c < List.length h ->
  for_each names (fun param_name =>
    b <-- contains c param_name ;;
    if b then delitem c param_name else ret tt) h = (PyOk tt, h1) ->
  only_at c h h1 /\
  (forall n, In n names -> dict_has (nth c h1 []) n = false) /\
  (forall n, ~ In n names -> dict_get (nth c h1 []) n = dict_get (nth c h []) n).
Proof.
  revert h. induction names as [|x names IH]; intros h Hc E.
  - simpl in E. injection E as <-. split; [split; auto|]. split; [intros n []|auto].
  - rewrite for_each_cons, bind_assoc, (bind_contains_ok _ _ _ _ Hc) in E.
    cbv beta iota in E.
    assert (Hstep : exists h', bindST (if dict_has (nth c h []) x then delitem c x else ret tt)
                       (fun _ => for_each names (fun param_name =>
                          b <-- contains c param_name ;;
                          if b then delitem c param_name else ret tt)) h =
                     for_each names (fun param_name =>
                          b <-- contains c param_name ;;
                          if b then delitem c param_name else ret tt) h' /\
                     List.length h' = List.length h /\
                     (forall l', l' <> c -> nth l' h' [] = nth l' h []) /\
                     nth c h' [] = dict_del (nth c h []) x).
    { destruct (dict_has (nth c h []) x) eqn:Hx.
      - exists (list_set h c (dict_del (nth c h []) x)).
        split; [|split; [apply list_set_length|split]].
        + unfold delitem. rewrite bind_assoc.
          rewrite (bind_load_ok _ _ _ (nth c h []) (nth_error_nth' h [] Hc)).
          cbv beta iota. rewrite Hx. reflexivity.
        + intros l' Hl'. now apply nth_list_set_neq.
        + apply nth_list_set_eq; lia.
      - exists h. split; [reflexivity|split; [reflexivity|split; [reflexivity|]]].
        now rewrite dict_del_absent. }
    destruct Hstep as [h' [Eh [Hlen [Hoth Hnth]]]]. rewrite Eh in E.
    assert (Hc' : c < List.length h') by lia.
    destruct (IH h' Hc' E) as [[Hl Ho] [Hin Hget]].
    split; [split|split].
    + lia.
    + intros l' Hl'. rewrite Ho by exact Hl'. now apply Hoth.
    + intros n [<-|Hn]; [|now apply Hin].
      destruct (in_dec String.string_dec x names) as [Hn|Hn]; [now apply Hin|].
      unfold dict_has. rewrite Hget by exact Hn. rewrite Hnth. now rewrite dict_get_del_eq.
    + intros n Hn. rewrite Hget by (intros Hn'; apply Hn; now right).
      rewrite Hnth. apply dict_get_del_neq. intros ->. apply Hn. now left.
Qed.

Lemma deepcopy_dict_ok l h c h1 :
  deepcopy_dict l h = (PyOk c, h1) ->
  l < List.length h /\ c = List.length h /\ h1 = app h [nth l h []].
Proof.
  unfold deepcopy_dict, bindST, load.
  destruct (nth_error h l) as [d|] eqn:N; simpl; [|discriminate].
  intros E. injection E as <- <-.
  assert (Hl : l < List.length h) by (apply nth_error_Some; congruence).
  split; [exact Hl|split; [reflexivity|]]. erewrite nth_error_nth; eauto.
Qed.

Ltac step_ok E :=
  match type of E with
  | bindST ?m ?k ?h = (PyOk _, _) =>
      let F := fresh "F" in let r := fresh "r" in let e := fresh "e" in let h1 := fresh "h" in
      destruct (m h) as [[r|e] h1] eqn:F;
      [rewrite (bind_ok _ _ _ _ _ F) in E; cbv beta in E
      |rewrite (bind_err _ _ _ _ _ F) in E; discriminate E]
  end.

(** [update_fixed] gives the special group a fresh copy of its fixed
    dict and leaves the old dict as it was, provided that dict is not one of
    the fixed dicts of the model lists. In the copy every removed name is
    absent, every added name that is not removed is present, and any other
    name, like an added name that was already fixed, keeps its old value. *)
Theorem update_fixed_special_fixed um la sa lla pa spa lr sr llr pr spr h um' h' :
  ~ In (s_fixed (special um))
      (app (g_fixed (lens um)) (app (g_fixed (source um))
         (app (g_fixed (lens_light um)) (g_fixed (ps um))))) ->
  update_fixed um la sa lla pa spa lr sr llr pr spr h = (PyOk um', h') ->
  s_fixed (special um') = List.length h /\
  List.length h' = S (List.length h) /\
  nth (s_fixed (special um)) h' [] = nth (s_fixed (special um)) h [] /\
  (forall n, In n spr -> dict_has (nth (s_fixed (special um')) h' []) n = false) /\
  (forall n, In n spa -> ~ In n spr -> dict_has (nth (s_fixed (special um')) h' []) n = true) /\
  (forall n, ~ In n spr -> (dict_has (nth (s_fixed (special um)) h []) n = true \/ ~ In n spa) ->
     dict_get (nth (s_fixed (special um')) h' []) n = dict_get (nth (s_fixed (special um)) h []) n).
Proof.
  intros Hal E. set (l := s_fixed (special um)) in *.
  rewrite !in_app_iff in Hal.
  unfold update_fixed in E. cbv zeta in E.
  do 11 step_ok E.
  repeat match goal with
  | F : _add_fixed ?km ?kf ?af ?h0 = (PyOk ?r, ?h1) |- _ =>
      let Hf := fresh "Hf" in
      pose proof (add_fixed_frame km kf af l h0 ltac:(tauto)) as Hf;
      rewrite F in Hf; simpl in Hf; destruct Hf as [[? ?] ->]; clear F
  | F : _remove_fixed ?kf ?rf ?h0 = (PyOk ?r, ?h1) |- _ =>
      let Hf := fresh "Hf" in
      pose proof (remove_fixed_frame kf rf l h0 ltac:(tauto)) as Hf;
      rewrite F in Hf; simpl in Hf; destruct Hf as [[? ?] ->]; clear F
  end.
  match goal with
  | F : deepcopy_dict _ ?h0 = (PyOk ?c, ?h1) |- _ =>
      apply deepcopy_dict_ok in F; destruct F as [Hl [-> ->]]
  end.
  fold l in Hl.
  assert (Hlen : List.length h7 = List.length h) by lia.
  assert (Hold : nth l h7 [] = nth l h []) by congruence.
  match goal with
  | F : for_each spa _ _ = (PyOk ?u, _) |- _ => destruct u; apply special_add_loop in F;
      [destruct F as [[Ha1 Ha2] [Ha3 Ha4]] | rewrite length_app; simpl; lia]
  end.
  match goal with
  | F : for_each spr _ _ = (PyOk ?u, _) |- _ => destruct u; apply special_remove_loop in F;
      [destruct F as [[Hr1 Hr2] [Hr3 Hr4]] | rewrite Ha1, length_app; simpl; lia]
  end.
  injection E as <- <-. cbn [special s_fixed].
  rewrite length_app in Ha1. simpl in Ha1.
  fold l in Ha2, Ha4.
  assert (Hc : nth (List.length h7) (app h7 [nth l h7 []]) [] = nth l h []).
  { rewrite app_nth2 by lia. rewrite Nat.sub_diag. exact Hold. }
  split; [exact Hlen|]. split; [lia|]. split.
  { rewrite Hr2 by lia. rewrite Ha2 by lia. rewrite app_nth1 by lia. exact Hold. }
  split; [exact Hr3|]. split.
  { intros n Hn Hn'. unfold dict_has. rewrite Hr4 by exact Hn'. apply Ha3, Hn. }
  intros n Hn Hn'. rewrite Hr4 by exact Hn. rewrite Ha4; rewrite Hc; [reflexivity | exact Hn'].
Qed.

(** On success [update_fixed] keeps the fixed lists of the four model
    groups (they are updated in place), the extinction group, the state and the
    model options, and allocates exactly one dict, the copy of the special
    fixed dict. *)
Theorem update_fixed_keeps_references um la sa lla pa spa lr sr llr pr spr h um' h' :
  update_fixed um la sa lla pa spa lr sr llr pr spr h = (PyOk um', h') ->
  g_fixed (lens um') = g_fixed (lens um) /\
  g_fixed (source um') = g_fixed (source um) /\
  g_fixed (lens_light um') = g_fixed (lens_light um) /\
  g_fixed (ps um') = g_fixed (ps um) /\
  extinction um' = extinction um /\
  _kwargs_temp um' = _kwargs_temp um /\
  kwargs_model um' = kwargs_model um /\
  s_init (special um') = s_init (special um) /\
  s_fixed (special um') = List.length h /\
  List.length h' = S (List.length h).
Proof.
  intros E. unfold update_fixed in E. cbv zeta in E.
  do 11 step_ok E.
  repeat match goal with
  | F : _add_fixed ?km ?kf ?af ?h0 = (PyOk ?r, ?h1) |- _ =>
      let Hf := fresh "Hf" in
      pose proof (add_fixed_length km kf af h0) as Hf; rewrite F in Hf; simpl in Hf;
      apply add_fixed_returns in F; subst r
  | F : _remove_fixed ?kf ?rf ?h0 = (PyOk ?r, ?h1) |- _ =>
      let Hf := fresh "Hf" in
      pose proof (remove_fixed_length kf rf h0) as Hf; rewrite F in Hf; simpl in Hf;
      apply remove_fixed_returns in F; subst r
  end.
  match goal with
  | F : deepcopy_dict _ ?h0 = (PyOk ?c, ?h1) |- _ =>
      apply deepcopy_dict_ok in F; destruct F as [Hl [-> ->]]
  end.
  match goal with
  | F : for_each spa _ _ = (PyOk ?u, _) |- _ => destruct u; apply special_add_loop in F;
      [destruct F as [[Ha1 _] _] | rewrite length_app; simpl; lia]
  end.
  match goal with
  | F : for_each spr _ _ = (PyOk ?u, _) |- _ => destruct u; apply special_remove_loop in F;
      [destruct F as [[Hr1 _] _] | rewrite Ha1, length_app; simpl; lia]
  end.
  injection E as <- <-. rewrite length_app in Ha1. simpl in Ha1.
  cbn. repeat split; lia.
Qed.

(** ** Witnesses of the update manager facts *)

Ltac nodup_nat := repeat (constructor; [simpl; intuition discriminate |]); constructor.

Lemma _update_limit_closed_form_witness :
  _update_limit [(0%Z, ["a"; "c"], [VNum 5; VNum 6])] [0; 1] hw =
  (PyOk [6; 7], app hw [[("a", VNum 5); ("c", VNum 6)]; [("b", VNum 2)]]).
Proof.
  rewrite _update_limit_closed_form.
  - reflexivity.
  - nodup_nat.
  - repeat constructor.
  - constructor; [right; split; [discriminate | simpl; lia] | constructor].
Defined.

Lemma _update_limit_raises_iff_bad_entry_witness :
  fst (_update_limit [(5%Z, ["a"], [VNum 1])] [0; 1] hw) = PyRaise IndexError.
Proof.
  apply (proj2 (proj2 (_update_limit_raises_iff_bad_entry [(5%Z, ["a"], [VNum 1])] [0; 1] hw
                     ltac:(repeat constructor)))).
  intros H. apply Forall_inv in H. simpl in H.
  destruct H as [H | [H _]]; [discriminate | apply H; reflexivity].
Defined.

Lemma _remove_fixed_in_place_witness :
  fst (_remove_fixed [0; 1] [(0%Z, ["a"]); (5%Z, [])] hw) = PyOk [0; 1].
Proof.
  apply (proj2 (proj1 (proj2 (_remove_fixed_in_place [0; 1] [(0%Z, ["a"]); (5%Z, [])] hw
                     ltac:(repeat constructor))))).
  constructor; [right; discriminate | constructor; [left; reflexivity | constructor]].
Defined.

Lemma _remove_fixed_unfixes_names_witness :
  nth 0 (snd (_remove_fixed [0; 1] [(0%Z, ["a"]); ((-1)%Z, ["z"])] hw)) [] = [].
Proof.
  rewrite _remove_fixed_unfixes_names.
  - reflexivity.
  - repeat constructor.
  - constructor; [right; discriminate | constructor; [right; discriminate | constructor]].
Defined.

Lemma _add_fixed_copies_from_model_witness :
  exists h', _add_fixed (Some [1]) [0] [(0%Z, ["b"], None)] hw = (PyOk [0], h') /\
             dict_get (nth 0 h' []) "b" = Some (VNum 2) /\
             dict_get (nth 0 h' []) "a" = Some (VNum 1).
Proof.
  destruct (_add_fixed_copies_from_model [1] [0] 0%Z ["b"] 0 1 hw eq_refl eq_refl
              ltac:(simpl; lia) ltac:(simpl; lia) ltac:(repeat constructor))
    as (h' & E & _ & Hin & Hout & _).
  exists h'. split; [exact E|]. split.
  - rewrite Hin by (left; reflexivity). reflexivity.
  - rewrite Hout by (simpl; intuition discriminate). reflexivity.
Defined.

Lemma _add_fixed_missing_model_key_witness :
  fst (_add_fixed (Some [1]) [0] [(0%Z, ["q"], None)] hw) = PyRaise KeyError.
Proof.
  apply (proj2 (_add_fixed_missing_model_key [1] [0] 0%Z ["q"] 0 1 hw eq_refl eq_refl
                  ltac:(simpl; lia) ltac:(simpl; lia))).
  constructor. reflexivity.
Defined.

Lemma update_param_value_without_values_is_noop_witness :
  update_param_value um_w [(0%Z, ["a"], [])] [(0%Z, [], [VNum 4])] [] [] hw = (PyOk tt, hw).
Proof.
  apply update_param_value_without_values_is_noop.
  - constructor; [right; reflexivity | constructor].
  - constructor; [left; reflexivity | constructor].
  - constructor.
  - constructor.
Defined.

Lemma update_param_value_writes_through_init_witness :
  update_param_value um_w [(0%Z, ["a"; "z"], [VNum 4])] [] [] [] hw =
  (PyOk tt, [[("a", VNum 4)]; [("b", VNum 2)]; [("lens_model_list", VBool true)];
             [("s", VNum 3)]; []; []]).
Proof.
  rewrite (proj1 (update_param_value_writes_through_init um_w 0%Z ["a"; "z"] [VNum 4] 0 hw
                    eq_refl eq_refl ltac:(simpl; lia))).
  reflexivity.
Defined.


Lemma init_without_model_lists_witness :
  exists um, UpdateManager_init 4 4 4 params_none hw = (PyOk um, app hw [[]; []; []; []; []]) /\
             s_fixed (special um) = 8 /\ lens um = empty_group.
Proof.
  destruct (init_without_model_lists 4 4 4 params_none hw ltac:(simpl; lia)
              ltac:(intros key _; left; reflexivity) eq_refl)
    as (um & E & Hlens & _ & _ & _ & _ & Hsp & _).
  exists um. split; [exact E|]. split; [rewrite Hsp; reflexivity | exact Hlens].
Defined.

Lemma init_lens_list_needs_params_witness :
  UpdateManager_init 2 2 2 params_none hw = (PyRaise KeyError, hw).
Proof.
  apply (proj1 (init_lens_list_needs_params 2 2 2 params_none hw (VBool true)
                  ltac:(simpl; lia) eq_refl ltac:(discriminate))).
  reflexivity.
Defined.


Lemma update_fixed_special_fixed_witness :
  exists um' h',
    update_fixed um_w [] [] [] [] ["a"] [] [] [] [] ["s"] hw = (PyOk um', h') /\
    dict_has (nth (s_fixed (special um')) h' []) "a" = true /\
    dict_has (nth (s_fixed (special um')) h' []) "s" = false /\
    nth 3 h' [] = [("s", VNum 3)].
Proof.
  eexists. eexists. split; [cbv; reflexivity|].
  destruct (update_fixed_special_fixed um_w [] [] [] [] ["a"] [] [] [] [] ["s"] hw _ _
              ltac:(simpl; intuition discriminate) eq_refl)
    as (_ & _ & Hold & Hr & Ha & _).
  split; [apply Ha; simpl; intuition discriminate|].
  split; [apply Hr; simpl; tauto | exact Hold].
Defined.

Lemma update_fixed_keeps_references_witness :
  exists um' h',
    update_fixed um_w [(0%Z, ["a"], None)] [] [] [] [] [] [] [] [] [] hw = (PyOk um', h') /\
    g_fixed (lens um') = [1] /\ List.length h' = 7.
Proof.
  eexists. eexists. split; [cbv; reflexivity|].
  destruct (update_fixed_keeps_references um_w [(0%Z, ["a"], None)] [] [] [] [] [] [] [] [] []
              hw _ _ eq_refl)
    as (Hl & _ & _ & _ & _ & _ & _ & _ & _ & Hlen).
  split; [exact Hl | exact Hlen].
Defined.

End UpdateManagerFacts.
